(** * lxpkg-gui: the package pipeline of [lxpkg_gui.py]

    A shallow embedding of the non-graphical part of [lxpkg_gui.py]:
    the descriptor lookup, the fetcher, the extractor, the build
    executor, the installation thread and the single-job guard of the
    main window.  Python text is modelled as byte strings (UTF-8), so
    the curly apostrophes of the program's messages are kept as they
    are in the source. *)

From Stdlib Require Import String Ascii List ZArith Lia Bool Sorted.
Import ListNotations.
Open Scope string_scope.

(** ** Python strings *)

Module PyStr.

(** [str.lower()], on ASCII text: bytes outside [A-Z] are kept. *)
Definition lower_ascii (c : ascii) : ascii :=
  let n := nat_of_ascii c in
  if (65 <=? n)%nat && (n <=? 90)%nat then ascii_of_nat (n + 32) else c.

Fixpoint lower (s : string) : string :=
  match s with
  | EmptyString => EmptyString
  | String c t => String (lower_ascii c) (lower t)
  end.

(** [s.startswith(p)] *)
Definition startswith (s p : string) : bool := String.prefix p s.

(** [needle in hay] on two strings: substring test. *)
Fixpoint contains (needle hay : string) : bool :=
  String.prefix needle hay ||
  match hay with
  | EmptyString => false
  | String _ t => contains needle t
  end.

(** [s.endswith(suf)] *)
Definition endswith (s suf : string) : bool :=
  (String.length suf <=? String.length s)%nat &&
  String.eqb (substring (String.length s - String.length suf)
                        (String.length suf) s) suf.

(** [(s[:i], s[i:])] for [i = s.rfind(c)], when [c] occurs in [s]. *)
Fixpoint rsplit (c : ascii) (s : string) : option (string * string) :=
  match s with
  | EmptyString => None
  | String a t =>
      match rsplit c t with
      | Some (h, tl) => Some (String a h, tl)
      | None => if Ascii.eqb a c then Some (EmptyString, s) else None
      end
  end.

(** [s.rstrip(c)] for a single character [c]. *)
Fixpoint rstrip (c : ascii) (s : string) : string :=
  match s with
  | EmptyString => EmptyString
  | String a t =>
      let t' := rstrip c t in
      if String.eqb t' EmptyString && Ascii.eqb a c
      then EmptyString else String a t'
  end.

(** [s == c * len(s)] *)
Fixpoint all_char (c : ascii) (s : string) : bool :=
  match s with
  | EmptyString => true
  | String a t => Ascii.eqb a c && all_char c t
  end.

(** [repr(s)] of a text without quotes or escapes, as [KeyError] and
    the f-strings of the program print it. *)
Definition quote (s : string) : string := "'" ++ s ++ "'".

End PyStr.

(** ** [os.path] (posixpath) *)

Module os_path.
Import PyStr.

Definition sep : ascii := "/"%char.
Definition extsep : ascii := "."%char.

(** [i = p.rfind('/') + 1; return p[i:]] *)
Definition basename (p : string) : string :=
  match rsplit sep p with
  | Some (_, String _ tl) => tl
  | _ => p
  end.

(** [head = p[:i]; if head and head != '/'*len(head): head = head.rstrip('/')] *)
Definition dirname (p : string) : string :=
  match rsplit sep p with
  | Some (h, _) =>
      let head := h ++ String sep EmptyString in
      if all_char sep head then head else rstrip sep head
  | None => EmptyString
  end.

(** [os.path.join(a, b)] with two arguments. *)
Definition join (a b : string) : string :=
  if startswith b "/" then b
  else if String.eqb a EmptyString || endswith a "/" then a ++ b
  else a ++ "/" ++ b.

(** [genericpath._splitext]: the extension starts at the last dot of the
    last path component, unless only dots precede it there. *)
Definition splitext (p : string) : string * string :=
  let '(head, base) :=
    match rsplit sep p with
    | Some (h, String a tl) => (h ++ String a EmptyString, tl)
    | _ => (EmptyString, p)
    end in
  match rsplit extsep base with
  | Some (stem, ext) =>
      if all_char extsep stem then (p, EmptyString)
      else (head ++ stem, ext)
  | None => (p, EmptyString)
  end.

End os_path.

(** ** Descriptors

    What [toml.load] returns for a recipe file: a dictionary of tables.
    Every key the program looks up may be absent; the values that are
    present have the types of the descriptor format (texts and lists of
    texts). *)

Record package_table := {
  name : option string;
  src : option (list string)
}.

Record build_table := {
  configure : option (list string);
  compile : option (list string);
  install : option (list string)
}.

Record install_table := {
  files : option (list string)
}.

Record package_info := {
  pi_package : option package_table;
  pi_build : option build_table;
  pi_install : option install_table
}.

(** ** Exceptions, processes, events *)

(** A raised exception is modelled by its text, [str(e)]. *)
Definition exn := string.

(** [subprocess.CompletedProcess] with both pipes captured. *)
Record CompletedProcess := {
  returncode : Z;
  stdout : string;
  stderr : string
}.

(** What the program does that can be observed from outside: the three
    signals of [InstallationThread], the texts written to the status
    label, and the calls that touch the network, the shell and the
    build artifacts. *)
Inductive event :=
| Progress (percent : Z)
| Message (text : string)
| Finished (success : bool) (message details : string)
| StatusLabel (text : string)
| Download (url filename : string)
| Exec (cmd cwd : string) (result : exn + CompletedProcess)
| Rmtree (path : string)
| Remove (path : string).

Definition SOURCES_BASE_DIR : string := "/home/user/sources".
Definition BUILD_DIR : string := "/home/user/sources/build".
Definition INSTALL_DIR : string := "/usr".

(** ** The operating system

    The library calls of the program, over an abstract state of the
    machine.  A call that changes the machine returns the new state, and
    does so also when it raises. *)

Class OS (W : Type) := {
  (** [os.walk(top)]: the [(root, files)] of every directory, in the
      order of the traversal; errors are swallowed by [os.walk]. *)
  os_walk : string -> W -> list (string * list string);
  (** [open(path, 'r')] and reading the text. *)
  os_read : string -> W -> exn + string;
  (** [toml.load] on the text of a file. *)
  toml_loads : string -> exn + package_info;
  os_makedirs_exist_ok : string -> W -> W * (exn + unit);
  os_path_exists : string -> W -> bool;
  os_path_isdir : string -> W -> bool;
  os_listdir : string -> W -> exn + list string;
  urllib_urlretrieve : string -> string -> W -> W * (exn + unit);
  (** [tarfile.open(tarball, 'r:*')] and [extractall(path=dest)]. *)
  tarfile_extractall : string -> string -> W -> W * (exn + unit);
  (** [subprocess.run(cmd, shell=True, cwd=cwd, stdout=PIPE, stderr=PIPE)] *)
  subprocess_run : string -> string -> W -> W * (exn + CompletedProcess);
  (** [bytes.decode()] of captured output. *)
  bytes_decode : string -> exn + string;
  shutil_rmtree : string -> W -> W * (exn + unit);
  os_remove : string -> W -> W * (exn + unit)
}.

(** ** The monad of the program: machine state, emitted events, exceptions *)

Definition M (W A : Type) : Type := W -> W * list event * (exn + A).

Definition ret {W A} (a : A) : M W A := fun w => (w, [], inr a).

Definition raise {W A} (e : exn) : M W A := fun w => (w, [], inl e).

Definition bind {W A B} (m : M W A) (f : A -> M W B) : M W B :=
  fun w =>
    match m w with
    | (w1, ev1, inl e) => (w1, ev1, inl e)
    | (w1, ev1, inr a) =>
        match f a w1 with
        | (w2, ev2, o) => (w2, (ev1 ++ ev2)%list, o)
        end
    end.

(** [try: m except Exception as e: h e] *)
Definition try_except {W A} (m : M W A) (h : exn -> M W A) : M W A :=
  fun w =>
    match m w with
    | (w1, ev1, inl e) =>
        match h e w1 with
        | (w2, ev2, o) => (w2, (ev1 ++ ev2)%list, o)
        end
    | r => r
    end.

Definition emit {W} (e : event) : M W unit := fun w => (w, [e], inr tt).

(** A call that only reads the machine. *)
Definition reading {W A} (f : W -> exn + A) : M W A := fun w => (w, [], f w).

Definition asking {W A} (f : W -> A) : M W A := fun w => (w, [], inr (f w)).

(** A call that changes the machine. *)
Definition calling {W A} (f : W -> W * (exn + A)) : M W A :=
  fun w => let '(w1, o) := f w in (w1, [], o).

Definition of_result {W A} (o : exn + A) : M W A := fun w => (w, [], o).

Definition world_of {W A} (r : W * list event * (exn + A)) : W := fst (fst r).
Definition events_of {W A} (r : W * list event * (exn + A)) : list event :=
  snd (fst r).
Definition outcome_of {W A} (r : W * list event * (exn + A)) : exn + A := snd r.

Declare Scope py_scope.
Delimit Scope py_scope with py.
Notation "x <- m ;; k" := (bind m (fun x => k))
  (at level 61, m at next level, right associativity) : py_scope.
Notation "m ;; k" := (bind m (fun _ => k))
  (at level 61, right associativity) : py_scope.
Open Scope py_scope.

(** [d[key]] on a table: [KeyError(key)] when the key is absent. *)
Definition getitem {W A} (key : string) (o : option A) : M W A :=
  match o with
  | Some a => ret a
  | None => raise (PyStr.quote key)
  end.

(** [l[0]] on a list. *)
Definition first_item {W A} (l : list A) : M W A :=
  match l with
  | a :: _ => ret a
  | [] => raise "list index out of range"
  end.

(** ** The program *)

Section Program.

Context {W : Type} `{OS W}.

Import PyStr.

(** [self.status_label.setText(text)] *)
Definition status_label_setText (text : string) : M W unit :=
  emit (StatusLabel text).

(** *** [PackageManager.find_package_toml] *)

Fixpoint find_in_files (package_name root : string) (files : list string)
  : option string :=
  match files with
  | [] => None
  | file :: rest =>
      if endswith file ".toml" && contains (lower package_name) (lower file)
      then Some (os_path.join root file)
      else find_in_files package_name root rest
  end.

Fixpoint find_in_walk (package_name : string)
  (walk : list (string * list string)) : option string :=
  match walk with
  | [] => None
  | (root, files) :: rest =>
      match find_in_files package_name root files with
      | Some p => Some p
      | None => find_in_walk package_name rest
      end
  end.

Definition find_package_toml (package_name : string) : M W string :=
  try_except
    (walk <- asking (os_walk SOURCES_BASE_DIR);;
     match find_in_walk package_name walk with
     | Some p => ret p
     | None => raise ("Couldn’t find the package '" ++ package_name ++ "'")
     end)
    (fun e => raise ("Search for the package failed: " ++ e)).

(** *** [PackageManager.load_package_info] *)

Definition load_package_info (toml_path : string) : M W package_info :=
  try_except
    (text <- reading (os_read toml_path);;
     of_result (toml_loads text))
    (fun e => raise ("Oops, couldn’t load the TOML file: " ++ e)).

(** *** [PackageManager.fetch_source] *)

Definition urlretrieve (url filename : string) : M W unit :=
  fun w =>
    let '(w1, o) := urllib_urlretrieve url filename w in
    (w1, [Download url filename], o).

Definition fetch_source (url dest_dir : string) : M W string :=
  try_except
    (let filename := os_path.join dest_dir (os_path.basename url) in
     present <- asking (os_path_exists filename);;
     (if negb present then
        urlretrieve url filename;;
        status_label_setText ("Got it! Downloaded " ++ os_path.basename url)
      else ret tt);;
     ret filename)
    (fun e => raise ("Uh-oh, couldn’t download the source: " ++ e)).

(** *** [PackageManager.extract_tarball] *)

Definition extract_tarball (tarball dest_dir : string) : M W string :=
  try_except
    (calling (tarfile_extractall tarball dest_dir);;
     names <- reading (os_listdir dest_dir);;
     isdir <- asking (fun w p => os_path_isdir p w);;
     let extracted := filter isdir (map (os_path.join dest_dir) names) in
     ret (match extracted with
          | d :: _ => d
          | [] => dest_dir
          end))
    (fun e => raise ("Yikes, couldn’t extract the tarball: " ++ e)).

(** *** [PackageManager.build_package] *)

Definition run_shell (cmd cwd : string) : M W CompletedProcess :=
  fun w =>
    let '(w1, o) := subprocess_run cmd cwd w in
    (w1, [Exec cmd cwd o], o).

(** The body of the [for cmd in commands] loop, and the loop. *)
Definition run_command (src_dir stage cmd : string) : M W unit :=
  status_label_setText (stage ++ ": " ++ cmd);;
  result <- run_shell cmd src_dir;;
  (if negb (returncode result =? 0)%Z then
     error_msg <- of_result (bytes_decode (stderr result));;
     raise (stage ++ " didn’t work: " ++ error_msg)
   else ret tt);;
  status_label_setText (stage ++ " done").

Fixpoint run_commands (src_dir stage : string) (commands : list string)
  : M W unit :=
  match commands with
  | [] => ret tt
  | cmd :: rest =>
      run_command src_dir stage cmd;;
      run_commands src_dir stage rest
  end.

Definition build_package (src_dir : string) (commands : list string)
  (stage : string) : M W unit :=
  try_except
    (run_commands src_dir stage commands)
    (fun e => raise ("Oh no, the build failed: " ++ e)).

(** What the loop raises when command result [r] stops it. *)
Definition loop_error (stage : string) (r : exn + CompletedProcess) : exn :=
  match r with
  | inl e => e
  | inr cp =>
      match bytes_decode (stderr cp) with
      | inr error_msg => stage ++ " didn’t work: " ++ error_msg
      | inl e => e
      end
  end.

(** *** [InstallationThread.run] *)

(** [f"pkexec {cmd}" if "sudo" in cmd else cmd] *)
Definition pkexec_if_sudo (cmd : string) : string :=
  if contains "sudo" cmd then "pkexec " ++ cmd else cmd.

Definition rmtree (path : string) : M W unit :=
  emit (Rmtree path);; calling (shutil_rmtree path).

Definition remove (path : string) : M W unit :=
  emit (Remove path);; calling (os_remove path).

Definition configure_stage (src_dir : string) (build : build_table) : M W unit :=
  match configure build with
  | Some commands =>
      emit (Message "Configuring...");;
      build_package src_dir commands "Configuring";;
      emit (Progress 60)
  | None => ret tt
  end.

Definition compile_stage (src_dir : string) (build : build_table) : M W unit :=
  match compile build with
  | Some commands =>
      emit (Message "Compiling...");;
      build_package src_dir commands "Compiling";;
      emit (Progress 80)
  | None => ret tt
  end.

Definition install_stage (src_dir : string) (build : build_table) : M W unit :=
  match install build with
  | Some commands =>
      emit (Message "Installing...");;
      let install_cmd := map pkexec_if_sudo commands in
      build_package src_dir install_cmd "Installing";;
      emit (Progress 90)
  | None => ret tt
  end.

(** The [try] block up to the clean-up: it returns the extracted
    directory and the downloaded file. *)
Definition stages (package_name : string) : M W (string * string) :=
  toml_path <- find_package_toml package_name;;
  package_info <- load_package_info toml_path;;
  package <- getitem "package" (pi_package package_info);;
  build <- getitem "build" (pi_build package_info);;
  emit (Message ("Loaded: " ++ os_path.basename toml_path));;
  calling (os_makedirs_exist_ok BUILD_DIR);;
  emit (Progress 10);;
  srcs <- getitem "src" (src package);;
  url <- first_item srcs;;
  tarball <- fetch_source url (os_path.dirname toml_path);;
  emit (Progress 30);;
  src_dir <- extract_tarball tarball BUILD_DIR;;
  emit (Progress 50);;
  configure_stage src_dir build;;
  compile_stage src_dir build;;
  install_stage src_dir build;;
  ret (src_dir, tarball).

(** The two halves of [stages]: up to the look-up of the [build]
    table, and from the first message on. *)
Definition load_recipe (package_name : string)
  : M W (string * package_table * build_table) :=
  toml_path <- find_package_toml package_name;;
  package_info <- load_package_info toml_path;;
  package <- getitem "package" (pi_package package_info);;
  build <- getitem "build" (pi_build package_info);;
  ret (toml_path, package, build).

Definition fetch_and_build (toml_path : string) (package : package_table)
  (build : build_table) : M W (string * string) :=
  emit (Message ("Loaded: " ++ os_path.basename toml_path));;
  calling (os_makedirs_exist_ok BUILD_DIR);;
  emit (Progress 10);;
  srcs <- getitem "src" (src package);;
  url <- first_item srcs;;
  tarball <- fetch_source url (os_path.dirname toml_path);;
  emit (Progress 30);;
  src_dir <- extract_tarball tarball BUILD_DIR;;
  emit (Progress 50);;
  configure_stage src_dir build;;
  compile_stage src_dir build;;
  install_stage src_dir build;;
  ret (src_dir, tarball).

Definition cleanup (src_dir tarball : string) : M W unit :=
  rmtree src_dir;;
  remove tarball.

Definition run (package_name : string) : M W unit :=
  try_except
    (built <- stages package_name;;
     cleanup (fst built) (snd built);;
     emit (Progress 100);;
     emit (Finished true ("'" ++ package_name ++ "' installed") ""))
    (fun e => emit (Finished false ("Failed: " ++ e) e)).

(** *** The package list *)

(** [PackageManager.get_all_package_names] *)
Definition get_all_package_names (w : W) : list string :=
  flat_map
    (fun rf : string * list string =>
       map (fun f => fst (os_path.splitext f))
           (filter (fun f => endswith f ".toml") (snd rf)))
    (os_walk SOURCES_BASE_DIR w).

(** The names [load_all_packages(query)] puts on the grid. *)
Definition load_all_packages (query : string) (w : W) : list string :=
  filter (fun pkg => contains query (lower pkg)) (get_all_package_names w).

(** [PackageManager.search_packages], on the text of the search bar. *)
Definition search_packages (search_text : string) (w : W) : list string :=
  load_all_packages (lower search_text) w.

(** The listing as the specification words it: the descriptors whose
    file name or declared name contains the query, in any letter case.
    The declared name is the [name] of the [package] table of the file. *)
Definition declared_name (path : string) (w : W) : option string :=
  match os_read path w with
  | inr text =>
      match toml_loads text with
      | inr info =>
          match pi_package info with
          | Some p => name p
          | None => None
          end
      | inl _ => None
      end
  | inl _ => None
  end.

Definition spec_matches (query root file : string) (w : W) : bool :=
  contains (lower query) (lower file) ||
  match declared_name (os_path.join root file) w with
  | Some n => contains (lower query) (lower n)
  | None => false
  end.

Definition spec_listNames (query : string) (w : W) : list string :=
  flat_map
    (fun rf : string * list string =>
       map (fun f => fst (os_path.splitext f))
           (filter (fun f => endswith f ".toml" && spec_matches query (fst rf) f w)
                   (snd rf)))
    (os_walk SOURCES_BASE_DIR w).

End Program.

(** ** The main window: what [start_installation] reads and writes *)

Record InstallationThread := {
  package_name : string;
  isRunning : bool
}.

Record MessageBox := {
  title : string;
  text : string;
  details : string
}.

Record PackageManager := {
  selected_package : option string;
  install_thread : option InstallationThread;
  progress_bar_visible : bool;
  progress_bar_value : Z;
  (** the dialogs shown so far, oldest first *)
  dialogs : list MessageBox
}.

(** [CustomMessageBox(title, text, details, ...).exec()] *)
Definition show_message_box (b : MessageBox) (pm : PackageManager)
  : PackageManager :=
  {| selected_package := selected_package pm;
     install_thread := install_thread pm;
     progress_bar_visible := progress_bar_visible pm;
     progress_bar_value := progress_bar_value pm;
     dialogs := (dialogs pm ++ [b])%list |}.

(** [not self.selected_package]: [None] and the empty text are false. *)
Definition no_selection (pm : PackageManager) : bool :=
  match selected_package pm with
  | None => true
  | Some s => String.eqb s ""
  end.

(** [self.install_thread and self.install_thread.isRunning()] *)
Definition job_running (pm : PackageManager) : bool :=
  match install_thread pm with
  | None => false
  | Some t => isRunning t
  end.

Definition start_installation (pm : PackageManager) : PackageManager :=
  if no_selection pm then
    show_message_box
      {| title := "Error"; text := "Hey, pick a package first!"; details := "" |} pm
  else if job_running pm then
    show_message_box
      {| title := "Error";
         text := "Hold on, an installation’s already running!";
         details := "" |} pm
  else
    {| selected_package := selected_package pm;
       install_thread :=
         Some {| package_name := match selected_package pm with
                                 | Some s => s
                                 | None => ""
                                 end;
                 isRunning := true |};
       progress_bar_visible := true;
       progress_bar_value := 0;
       dialogs := dialogs pm |}.

(** ** A small machine

    An instance of the interface that computes: a file system as an
    association list from paths to nodes, a table of what the network
    serves, a table of archives, a parser that knows a few recipe
    files, and a shell that knows a few commands.  It is used to run
    the program on concrete inputs. *)

Module Sim.

Inductive node :=
| File (content : string)
| Dir.

Record world := {
  fs : list (string * node);
  remote : list (string * string)
}.

Fixpoint lookup {A} (k : string) (l : list (string * A)) : option A :=
  match l with
  | [] => None
  | (k', v) :: t => if String.eqb k k' then Some v else lookup k t
  end.

Fixpoint store {A} (k : string) (v : A) (l : list (string * A))
  : list (string * A) :=
  match l with
  | [] => [(k, v)]
  | (k', v') :: t =>
      if String.eqb k k' then (k, v) :: t else (k', v') :: store k v t
  end.

Definition erase {A} (keep : string -> bool) (l : list (string * A))
  : list (string * A) :=
  filter (fun kv => keep (fst kv)) l.

Definition with_fs (w : world) (f : list (string * node)) : world :=
  {| fs := f; remote := remote w |}.

Definition is_file (n : node) : bool :=
  match n with File _ => true | Dir => false end.

Definition exists_ (p : string) (w : world) : bool :=
  match lookup p (fs w) with Some _ => true | None => false end.

Definition isdir (p : string) (w : world) : bool :=
  match lookup p (fs w) with Some Dir => true | _ => false end.

Definition enoent (p : string) : exn :=
  "[Errno 2] No such file or directory: " ++ PyStr.quote p.

(** The entries of directory [d]: the base names of the paths whose
    parent is [d]. *)
Definition children (only_files : bool) (d : string) (w : world) : list string :=
  map (fun kv => os_path.basename (fst kv))
    (filter (fun kv => String.eqb (os_path.dirname (fst kv)) d
                       && negb (String.eqb (fst kv) d)
                       && (negb only_files || is_file (snd kv)))
            (fs w)).

Definition under (top p : string) : bool :=
  String.eqb p top || PyStr.startswith p (top ++ "/").

Definition walk (top : string) (w : world) : list (string * list string) :=
  map (fun kv => (fst kv, children true (fst kv) w))
    (filter (fun kv => negb (is_file (snd kv)) && under top (fst kv)) (fs w)).

Definition read (p : string) (w : world) : exn + string :=
  match lookup p (fs w) with
  | Some (File c) => inr c
  | Some Dir => inl ("[Errno 21] Is a directory: " ++ PyStr.quote p)
  | None => inl (enoent p)
  end.

Definition makedirs (p : string) (w : world) : world * (exn + unit) :=
  match lookup p (fs w) with
  | Some Dir => (w, inr tt)
  | Some (File _) => (w, inl ("[Errno 17] File exists: " ++ PyStr.quote p))
  | None => (with_fs w (store p Dir (fs w)), inr tt)
  end.

Definition listdir (p : string) (w : world) : exn + list string :=
  if isdir p w then inr (children false p w) else inl (enoent p).

Definition retrieve (url filename : string) (w : world) : world * (exn + unit) :=
  match lookup url (remote w) with
  | None => (w, inl "HTTP Error 404: Not Found")
  | Some c =>
      if isdir (os_path.dirname filename) w && negb (isdir filename w)
      then (with_fs w (store filename (File c) (fs w)), inr tt)
      else (w, inl (enoent filename))
  end.

(** The archives the extractor can open, by content: the entries they
    hold, relative to the destination. *)
Definition archives : list (string * list (string * node)) :=
  [ ("TAR pkg-1.0", [("pkg-1.0", Dir); ("pkg-1.0/Makefile", File "all:")]);
    ("TAR tool-2", [("tool-2", Dir); ("tool-2/configure", File "#!/bin/sh")]) ].

Definition extractall (tarball dest : string) (w : world) : world * (exn + unit) :=
  match read tarball w with
  | inl e => (w, inl e)
  | inr c =>
      match lookup c archives with
      | None => (w, inl "file could not be opened successfully")
      | Some entries =>
          (with_fs w
             (fold_left (fun f e => store (os_path.join dest (fst e)) (snd e) f)
                        entries (fs w)),
           inr tt)
      end
  end.

Definition nl : string := String (ascii_of_nat 10) EmptyString.

Definition exited (code : Z) (err : string) : CompletedProcess :=
  {| returncode := code; stdout := ""; stderr := err |}.

(** The commands the shell knows; any other is not found. *)
Definition commands : list (string * CompletedProcess) :=
  [ ("make", exited 0 "");
    ("make install", exited 0 "");
    ("sudo ./configure", exited 0 "");
    ("pkexec sudo make install", exited 0 "");
    ("ls /nonexistent",
     exited 2 ("ls: cannot access '/nonexistent': No such file or directory" ++ nl)) ].

Definition shell (cmd cwd : string) (w : world) : world * (exn + CompletedProcess) :=
  if isdir cwd w then
    match lookup cmd commands with
    | Some r => (w, inr r)
    | None => (w, inr (exited 127 ("/bin/sh: 1: " ++ cmd ++ ": not found" ++ nl)))
    end
  else (w, inl (enoent cwd)).

(** Strict UTF-8, as [bytes.decode()] checks it. *)
Definition continuation (lo hi : nat) (c : ascii) : bool :=
  (lo <=? nat_of_ascii c)%nat && (nat_of_ascii c <=? hi)%nat.

Fixpoint utf8 (s : string) : bool :=
  match s with
  | EmptyString => true
  | String a t =>
      let n := nat_of_ascii a in
      if (n <? 128)%nat then utf8 t
      else if (194 <=? n)%nat && (n <=? 223)%nat then
        match t with
        | String b t1 => continuation 128 191 b && utf8 t1
        | _ => false
        end
      else if (224 <=? n)%nat && (n <=? 239)%nat then
        match t with
        | String b (String c t2) =>
            continuation (if (n =? 224)%nat then 160 else 128)
                         (if (n =? 237)%nat then 159 else 191) b
            && continuation 128 191 c && utf8 t2
        | _ => false
        end
      else if (240 <=? n)%nat && (n <=? 244)%nat then
        match t with
        | String b (String c (String d t3)) =>
            continuation (if (n =? 240)%nat then 144 else 128)
                         (if (n =? 244)%nat then 143 else 191) b
            && continuation 128 191 c && continuation 128 191 d && utf8 t3
        | _ => false
        end
      else false
  end.

Definition decode (b : string) : exn + string :=
  if utf8 b then inr b else inl "'utf-8' codec can't decode bytes".

Definition delete_tree (p : string) (w : world) : world * (exn + unit) :=
  if isdir p w
  then (with_fs w (erase (fun q => negb (under p q)) (fs w)), inr tt)
  else (w, inl (enoent p)).

Definition unlink (p : string) (w : world) : world * (exn + unit) :=
  match lookup p (fs w) with
  | Some (File _) =>
      (with_fs w (erase (fun q => negb (String.eqb q p)) (fs w)), inr tt)
  | Some Dir => (w, inl ("[Errno 21] Is a directory: " ++ PyStr.quote p))
  | None => (w, inl (enoent p))
  end.

(** Recipe files and what [toml.load] makes of them. *)

Definition table (n : option string) (s : option (list string))
  (b : option build_table) : package_info :=
  {| pi_package := Some {| name := n; src := s |};
     pi_build := b;
     pi_install := None |}.

Definition pkg_toml : string :=
  "[package]" ++ nl ++ "name = 'pkg'" ++ nl ++
  "src = ['https://example.org/pkg-1.0.tar.gz']" ++ nl ++
  "[build]" ++ nl ++ "compile = ['make']" ++ nl ++
  "install = ['make install']" ++ nl.

Definition pkg_info : package_info :=
  table (Some "pkg") (Some ["https://example.org/pkg-1.0.tar.gz"])
    (Some {| configure := None; compile := Some ["make"];
             install := Some ["make install"] |}).

Definition tool_toml : string :=
  "[package]" ++ nl ++ "name = 'tool'" ++ nl ++
  "src = ['https://example.org/tool-2.tgz']" ++ nl ++
  "[build]" ++ nl ++ "configure = ['sudo ./configure']" ++ nl ++
  "compile = ['make']" ++ nl ++ "install = ['sudo make install']" ++ nl.

Definition tool_info : package_info :=
  table (Some "tool") (Some ["https://example.org/tool-2.tgz"])
    (Some {| configure := Some ["sudo ./configure"]; compile := Some ["make"];
             install := Some ["sudo make install"] |}).

(** A recipe without a [build] table, stored as [foo.toml] but
    declaring the name [bar]. *)
Definition foo_toml : string :=
  "[package]" ++ nl ++ "name = 'bar'" ++ nl ++
  "src = ['https://example.org/pkg-1.0.tar.gz']" ++ nl.

Definition foo_info : package_info :=
  table (Some "bar") (Some ["https://example.org/pkg-1.0.tar.gz"]) None.

(** A recipe whose [package] table has neither [name] nor [src]. *)
Definition anon_toml : string :=
  "[package]" ++ nl ++ "version = '1'" ++ nl ++ "[build]" ++ nl.

Definition anon_info : package_info :=
  table None None (Some {| configure := None; compile := None; install := None |}).

(** A recipe whose compile command fails. *)
Definition broken_toml : string :=
  "[package]" ++ nl ++ "name = 'broken'" ++ nl ++
  "src = ['https://example.org/pkg-1.0.tar.gz']" ++ nl ++
  "[build]" ++ nl ++ "compile = ['make', 'ls /nonexistent']" ++ nl ++
  "install = ['make install']" ++ nl.

Definition broken_info : package_info :=
  table (Some "broken") (Some ["https://example.org/pkg-1.0.tar.gz"])
    (Some {| configure := None; compile := Some ["make"; "ls /nonexistent"];
             install := Some ["make install"] |}).

Definition documents : list (string * package_info) :=
  [ (pkg_toml, pkg_info); (tool_toml, tool_info);
    (foo_toml, foo_info); (anon_toml, anon_info);
    (broken_toml, broken_info) ].

Definition loads (text : string) : exn + package_info :=
  match lookup text documents with
  | Some i => inr i
  | None => inl "Invalid TOML document"
  end.

#[global] Instance sim_os : OS world := {
  os_walk := walk;
  os_read := read;
  toml_loads := loads;
  os_makedirs_exist_ok := makedirs;
  os_path_exists := exists_;
  os_path_isdir := isdir;
  os_listdir := listdir;
  urllib_urlretrieve := retrieve;
  tarfile_extractall := extractall;
  subprocess_run := shell;
  bytes_decode := decode;
  shutil_rmtree := delete_tree;
  os_remove := unlink
}.

(** The machine before any job: five recipes in the source tree, and
    two archives on the network. *)
Definition w0 : world :=
  {| fs :=
       [ ("/home/user/sources", Dir);
         ("/home/user/sources/pkg", Dir);
         ("/home/user/sources/pkg/pkg.toml", File pkg_toml);
         ("/home/user/sources/tool", Dir);
         ("/home/user/sources/tool/tool.toml", File tool_toml);
         ("/home/user/sources/foo", Dir);
         ("/home/user/sources/foo/foo.toml", File foo_toml);
         ("/home/user/sources/anon", Dir);
         ("/home/user/sources/anon/anon.toml", File anon_toml);
         ("/home/user/sources/broken", Dir);
         ("/home/user/sources/broken/broken.toml", File broken_toml) ];
     remote :=
       [ ("https://example.org/pkg-1.0.tar.gz", "TAR pkg-1.0");
         ("https://example.org/tool-2.tgz", "TAR tool-2") ] |}.

End Sim.

(** ** Reading a trace *)

Definition progress_of (evs : list event) : list Z :=
  flat_map (fun e => match e with Progress n => [n] | _ => [] end) evs.

(** The success flags of the completion events. *)
Definition completions (evs : list event) : list bool :=
  flat_map (fun e => match e with Finished ok _ _ => [ok] | _ => [] end) evs.

(** The calls that delete build artifacts. *)
Definition deletions (evs : list event) : list event :=
  flat_map (fun e => match e with
                     | Rmtree _ | Remove _ => [e]
                     | _ => []
                     end) evs.

Definition downloads (evs : list event) : list (string * string) :=
  flat_map (fun e => match e with Download u f => [(u, f)] | _ => [] end) evs.

(** The commands handed to the shell: text, working directory, result. *)
Definition execution : Type := string * string * (exn + CompletedProcess).

Definition execs (evs : list event) : list execution :=
  flat_map (fun e => match e with Exec c d r => [(c, d, r)] | _ => [] end) evs.

Definition status_texts (evs : list event) : list string :=
  flat_map (fun e => match e with StatusLabel t => [t] | _ => [] end) evs.

(** A command that was started and exited with status 0. *)
Definition exec_ok (x : execution) : Prop :=
  match snd x with
  | inr cp => returncode cp = 0%Z
  | inl _ => False
  end.

(** A command that exited with a non-zero status. *)
Definition exited_nonzero (r : exn + CompletedProcess) : Prop :=
  match r with
  | inr cp => returncode cp <> 0%Z
  | inl _ => False
  end.

(** [l] records that [commands] ran in [src_dir], in order, each to
    exit status 0. *)
Definition ran (src_dir : string) (commands : list string)
  (l : list execution) : Prop :=
  map fst l = map (fun c => (c, src_dir)) commands /\ Forall exec_ok l.

(** The events of the build executor: status texts and shell calls. *)
Definition build_event (e : event) : Prop :=
  match e with
  | StatusLabel _ | Exec _ _ _ => True
  | _ => False
  end.

(** The events of the fetcher: status texts and downloads. *)
Definition fetch_event (e : event) : Prop :=
  match e with
  | StatusLabel _ | Download _ _ => True
  | _ => False
  end.

Definition no_exec (e : event) : Prop :=
  match e with Exec _ _ _ => False | _ => True end.

Definition no_progress (e : event) : Prop :=
  match e with Progress _ => False | _ => True end.

(** The events of the stages: no completion event and no deletion. *)
Definition stage_event (e : event) : Prop :=
  match e with
  | Finished _ _ _ | Rmtree _ | Remove _ => False
  | _ => True
  end.

Definition commands_of (l : list execution) : list string :=
  map (fun x => fst (fst x)) l.

(** A download, if [e] is one, is of [url] to [filename]. *)
Definition downloads_to (url filename : string) (e : event) : Prop :=
  match e with
  | Download u f => u = url /\ f = filename
  | _ => True
  end.

(** A download, if [e] is one, is of the first source of [package] to
    the directory of [toml_path], under the base name of the URL. *)
Definition recipe_download (toml_path : string) (package : package_table)
  (e : event) : Prop :=
  match e with
  | Download u f =>
      (exists others, src package = Some (u :: others)) /\
      f = os_path.join (os_path.dirname toml_path) (os_path.basename u)
  | _ => True
  end.

(** ['stage' in build] *)
Definition declared {A} (o : option A) : bool :=
  match o with
  | Some _ => true
  | None => false
  end.

(** The progress values a job with build table [b] reports when
    nothing fails. *)
Definition milestones (b : build_table) : list Z :=
  ([10; 30; 50]
   ++ (if declared (configure b) then [60] else [])
   ++ (if declared (compile b) then [80] else [])
   ++ (if declared (install b) then [90] else [])
   ++ [100])%list%Z.

(** The progress values of the stages, without the one of the clean-up. *)
Definition stage_milestones (b : build_table) : list Z :=
  ([10; 30; 50]
   ++ (if declared (configure b) then [60] else [])
   ++ (if declared (compile b) then [80] else [])
   ++ (if declared (install b) then [90] else []))%list%Z.

(** Nothing is handed to the shell after a command that did not exit
    with status 0. *)
Definition stops_at_failure (l : list execution) : Prop :=
  forall l1 x l2, l = (l1 ++ x :: l2)%list -> ~ exec_ok x -> l2 = [].

(** A computation all of whose events satisfy [P]. *)
Definition emits_only {W A} (P : event -> Prop) (m : M W A) : Prop :=
  forall w, Forall P (events_of (m w)).

(** A computation that, when it returns, has run every command to exit
    status 0, and in any case runs nothing after a failed command. *)
Definition fail_stop {W A} (m : M W A) : Prop :=
  forall w,
    match outcome_of (m w) with
    | inr _ => Forall exec_ok (execs (events_of (m w)))
    | inl _ => stops_at_failure (execs (events_of (m w)))
    end.

(** A computation that reports the progress values [l] when it returns,
    and a prefix of [l] when it raises. *)
Definition reports {W A} (l : list Z) (m : M W A) : Prop :=
  forall w,
    match outcome_of (m w) with
    | inr _ => progress_of (events_of (m w)) = l
    | inl _ => exists t, l = (progress_of (events_of (m w)) ++ t)%list
    end.

(** The build table of the recipe a job for [package_name] loads. *)
Definition loaded_build {W} `{OS W} (package_name : string) (w : W)
  : option build_table :=
  match outcome_of (find_package_toml package_name w) with
  | inr toml_path =>
      match outcome_of (load_package_info toml_path w) with
      | inr info =>
          match pi_package info with
          | Some _ => pi_build info
          | None => None
          end
      | inl _ => None
      end
  | inl _ => None
  end.

(** ** The rest of the main window, and the removal *)

(** [s.lstrip(c)] for a single character [c]. *)
Fixpoint lstrip (c : ascii) (s : string) : string :=
  match s with
  | EmptyString => EmptyString
  | String a t => if Ascii.eqb a c then lstrip c t else s
  end.

(** The test of [find_package_toml] on one file name. *)
Definition recipe_match (wanted file : string) : bool :=
  PyStr.endswith file ".toml" &&
  PyStr.contains (PyStr.lower wanted) (PyStr.lower file).

(** The icon [CustomMessageBox] puts beside its title. *)
Definition icon_label (message : string) : string :=
  if PyStr.contains "installed" (PyStr.lower message) then "✅" else "❌".

(** [pkg_info.get('install', {}).get('files', [])] *)
Definition manifest (pkg_info : package_info) : list string :=
  match pi_install pkg_info with
  | Some t =>
      match files t with
      | Some l => l
      | None => []
      end
  | None => []
  end.

(** [os.path.join(INSTALL_DIR, file.lstrip('/'))] *)
Definition install_path (file : string) : string :=
  os_path.join INSTALL_DIR (lstrip "/" file).

Section Removal.

Context {W : Type} `{OS W}.

(** The loop of [remove_package] over the manifest. *)
Fixpoint remove_files (listed : list string) : M W unit :=
  match listed with
  | [] => ret tt
  | file :: rest =>
      let path := install_path file in
      present <- asking (os_path_exists path);;
      (if present then remove path else ret tt);;
      remove_files rest
  end.

(** [PackageManager.remove_package]: it returns the dialog it shows. *)
Definition remove_package (pm : PackageManager) : M W MessageBox :=
  if no_selection pm then
    ret {| title := "Error"; text := "You need to select a package first!";
           details := "" |}
  else
    let selected := match selected_package pm with
                    | Some s => s
                    | None => ""
                    end in
    try_except
      (toml_path <- find_package_toml selected;;
       pkg_info <- load_package_info toml_path;;
       remove_files (manifest pkg_info);;
       ret {| title := "Success"; text := "Removed " ++ selected ++ "!";
              details := "" |})
      (fun e =>
         ret {| title := "Error"; text := "Couldn’t remove the package: " ++ e;
                details := e |}).

End Removal.

(** [PackageManager.installation_finished] *)
Definition installation_finished (success : bool) (message details : string)
  (pm : PackageManager) : PackageManager :=
  {| selected_package := selected_package pm;
     install_thread := None;
     progress_bar_visible := false;
     progress_bar_value := progress_bar_value pm;
     dialogs := (dialogs pm ++
                 [{| title := "Result"; text := message; details := details |}])%list |}.

(** [PackageManager.package_selected]: the new state and the text it
    writes to the status label. *)
Definition package_selected (pkg : string) (pm : PackageManager)
  : PackageManager * string :=
  ({| selected_package := Some pkg;
      install_thread := install_thread pm;
      progress_bar_visible := progress_bar_visible pm;
      progress_bar_value := progress_bar_value pm;
      dialogs := dialogs pm |},
   "Selected: " ++ pkg).

(** The commands of a stage that may be absent. *)
Definition stage_commands (o : option (list string)) : list string :=
  match o with
  | Some l => l
  | None => []
  end.

(** The commands a job with build table [b] hands to the shell when
    nothing fails, in order. *)
Definition job_commands (b : build_table) : list string :=
  (stage_commands (configure b) ++ stage_commands (compile b)
   ++ map pkexec_if_sudo (stage_commands (install b)))%list.

(** A computation that hands the commands [l] to the shell when it
    returns, and a prefix of [l] when it raises. *)
Definition hands_over {W A} (l : list string) (m : M W A) : Prop :=
  forall w,
    match outcome_of (m w) with
    | inr _ => commands_of (execs (events_of (m w))) = l
    | inl _ => exists t, l = (commands_of (execs (events_of (m w))) ++ t)%list
    end.

(** A shell call, if [e] is one, has working directory [src_dir]. *)
Definition exec_in (src_dir : string) (e : event) : Prop :=
  match e with
  | Exec _ cwd _ => cwd = src_dir
  | _ => True
  end.

(** Text of ASCII characters only; on such text [PyStr.lower] is
    [str.lower()]. *)
Fixpoint is_ascii (s : string) : bool :=
  match s with
  | EmptyString => true
  | String a t => (nat_of_ascii a <? 128)%nat && is_ascii t
  end.

(** [p] is what [extract_tarball] picks from the listing [names] of
    [dest_dir] on machine [w]: the first entry that is a directory,
    joined to [dest_dir], or [dest_dir] when no entry is one. *)
Definition first_directory_of {W} `{OS W} (dest_dir : string)
  (names : list string) (w : W) (p : string) : Prop :=
  (p = dest_dir /\
   Forall (fun d => os_path_isdir (os_path.join dest_dir d) w = false) names) \/
  exists pre d post,
    names = (pre ++ d :: post)%list /\
    Forall (fun d => os_path_isdir (os_path.join dest_dir d) w = false) pre /\
    os_path_isdir (os_path.join dest_dir d) w = true /\
    p = os_path.join dest_dir d.

(** A computation that hands nothing to the shell, or whose commands
    all run in one directory, which [extract_tarball] returned for the
    build directory. *)
Definition runs_in_extracted_dir {W} `{OS W} {A} (m : M W A) : Prop :=
  forall w,
    execs (events_of (m w)) = [] \/
    exists tarball w1 w2 names src_dir,
      extract_tarball tarball BUILD_DIR w1 = (w2, [], inr src_dir) /\
      os_listdir BUILD_DIR w2 = inr names /\
      first_directory_of BUILD_DIR names w2 src_dir /\
      Forall (fun x : execution => snd (fst x) = src_dir) (execs (events_of (m w))).

(** A removal of a listed file below the install directory, and
    nothing else. *)
Definition removal_of (listed : list string) (e : event) : Prop :=
  exists file, In file listed /\ e = Remove (install_path file).

(** * Properties *)

(** ** Texts and paths on concrete inputs *)

Example basename_url :
  os_path.basename "https://example.org/pkg-1.0.tar.gz" = "pkg-1.0.tar.gz".
Proof. reflexivity. Qed.

Example dirname_toml :
  os_path.dirname "/home/user/sources/pkg/pkg.toml" = "/home/user/sources/pkg".
Proof. reflexivity. Qed.

Example dirname_root : os_path.dirname "/pkg.toml" = "/".
Proof. reflexivity. Qed.

Example join_abs : os_path.join "/a" "/b" = "/b" /\ os_path.join "/a/" "b" = "/a/b"
                   /\ os_path.join "/a" "b" = "/a/b" /\ os_path.join "" "b" = "b".
Proof. repeat split. Qed.

Example splitext_samples :
  os_path.splitext "pkg-1.0.toml" = ("pkg-1.0", ".toml") /\
  os_path.splitext ".toml" = (".toml", "") /\
  os_path.splitext "a/b.c/d" = ("a/b.c/d", "") /\
  os_path.splitext "..x.toml" = ("..x", ".toml").
Proof. repeat split. Qed.

Example contains_samples :
  PyStr.contains "sudo" "cd x && sudo make install" = true /\
  PyStr.contains "" "" = true /\
  PyStr.contains "sudo" "make install" = false /\
  PyStr.endswith "Foo.toml" ".toml" = true /\
  PyStr.endswith "toml" ".toml" = false /\
  PyStr.lower "Foo-1.0.TOML" = "foo-1.0.toml".
Proof. repeat split. Qed.

(** ** The end-to-end scenario *)

Example scenario_events :
  events_of (run "pkg" Sim.w0) =
  [ Message "Loaded: pkg.toml"; Progress 10;
    Download "https://example.org/pkg-1.0.tar.gz"
      "/home/user/sources/pkg/pkg-1.0.tar.gz";
    StatusLabel "Got it! Downloaded pkg-1.0.tar.gz";
    Progress 30; Progress 50;
    Message "Compiling..."; StatusLabel "Compiling: make";
    Exec "make" "/home/user/sources/build/pkg-1.0" (inr (Sim.exited 0 ""));
    StatusLabel "Compiling done"; Progress 80;
    Message "Installing..."; StatusLabel "Installing: make install";
    Exec "make install" "/home/user/sources/build/pkg-1.0" (inr (Sim.exited 0 ""));
    StatusLabel "Installing done"; Progress 90;
    Rmtree "/home/user/sources/build/pkg-1.0";
    Remove "/home/user/sources/pkg/pkg-1.0.tar.gz";
    Progress 100; Finished true "'pkg' installed" "" ].
Proof. vm_compute. reflexivity. Qed.

(** ** The monad *)

Section Monad.

Context {W : Type}.

Lemma bind_inv {A B} (m : M W A) (f : A -> M W B) w w2 evs o :
  bind m f w = (w2, evs, o) ->
  (exists e, m w = (w2, evs, inl e) /\ o = inl e) \/
  (exists w1 ev1 a ev2,
      m w = (w1, ev1, inr a) /\ f a w1 = (w2, ev2, o) /\ evs = (ev1 ++ ev2)%list).
Proof.
  unfold bind. destruct (m w) as [[w1 ev1] [e | a]].
  - intros [= <- <- <-]. left. eauto.
  - destruct (f a w1) as [[w3 ev2] o2] eqn:Ef. intros [= <- <- <-].
    right. exists w1, ev1, a, ev2. auto.
Qed.

Lemma try_except_inv {A} (m : M W A) (h : exn -> M W A) w w2 evs o :
  try_except m h w = (w2, evs, o) ->
  (exists a, m w = (w2, evs, inr a) /\ o = inr a) \/
  (exists w1 ev1 e ev2,
      m w = (w1, ev1, inl e) /\ h e w1 = (w2, ev2, o) /\ evs = (ev1 ++ ev2)%list).
Proof.
  unfold try_except. destruct (m w) as [[w1 ev1] [e | a]].
  - destruct (h e w1) as [[w3 ev2] o2] eqn:Eh. intros [= <- <- <-].
    right. exists w1, ev1, e, ev2. auto.
  - intros [= <- <- <-]. left. eauto.
Qed.

Lemma emits_only_ret {A} P (a : A) : emits_only P (@ret W A a).
Proof. intros w. constructor. Qed.

Lemma emits_only_raise {A} P e : emits_only P (@raise W A e).
Proof. intros w. constructor. Qed.

Lemma emits_only_emit (P : event -> Prop) e : P e -> emits_only P (@emit W e).
Proof. intros He w. repeat constructor. exact He. Qed.

Lemma emits_only_reading {A} P (f : W -> exn + A) : emits_only P (reading f).
Proof. intros w. constructor. Qed.

Lemma emits_only_asking {A} P (f : W -> A) : emits_only P (asking f).
Proof. intros w. constructor. Qed.

Lemma emits_only_calling {A} P (f : W -> W * (exn + A)) :
  emits_only P (calling f).
Proof. intros w. unfold calling, events_of. destruct (f w). constructor. Qed.

Lemma emits_only_of_result {A} P (o : exn + A) : emits_only P (@of_result W A o).
Proof. intros w. constructor. Qed.

Lemma emits_only_getitem {A} P key (o : option A) :
  emits_only P (@getitem W A key o).
Proof. destruct o; intros w; constructor. Qed.

Lemma emits_only_first_item {A} P (l : list A) :
  emits_only P (@first_item W A l).
Proof. destruct l; intros w; constructor. Qed.

Lemma emits_only_bind {A B} P (m : M W A) (f : A -> M W B) :
  emits_only P m -> (forall a, emits_only P (f a)) -> emits_only P (bind m f).
Proof.
  intros Hm Hf w. unfold events_of, bind.
  specialize (Hm w). unfold events_of in Hm.
  destruct (m w) as [[w1 ev1] [e | a]]; simpl in *; auto.
  specialize (Hf a w1). unfold events_of in Hf.
  destruct (f a w1) as [[w2 ev2] o]. simpl in *.
  apply Forall_app; auto.
Qed.

Lemma emits_only_try_except {A} P (m : M W A) (h : exn -> M W A) :
  emits_only P m -> (forall e, emits_only P (h e)) ->
  emits_only P (try_except m h).
Proof.
  intros Hm Hh w. unfold events_of, try_except.
  specialize (Hm w). unfold events_of in Hm.
  destruct (m w) as [[w1 ev1] [e | a]]; simpl in *; auto.
  specialize (Hh e w1). unfold events_of in Hh.
  destruct (h e w1) as [[w2 ev2] o]. simpl in *.
  apply Forall_app; auto.
Qed.

Lemma emits_only_weaken {A} (P Q : event -> Prop) (m : M W A) :
  (forall e, P e -> Q e) -> emits_only P m -> emits_only Q m.
Proof. intros HPQ Hm w. eapply Forall_impl; eauto. Qed.

End Monad.

Create HintDb emits.

#[local] Hint Resolve emits_only_ret emits_only_raise emits_only_reading
  emits_only_asking emits_only_calling emits_only_of_result
  emits_only_getitem emits_only_first_item : emits.

(** Walks down the syntax of a computation. *)
Ltac emits :=
  repeat first
    [ apply emits_only_bind; [ | intros ? ]
    | apply emits_only_try_except; [ | intros ? ]
    | apply emits_only_emit; exact I
    | solve [ auto with emits ]
    | match goal with
      | |- emits_only _ (match ?x with _ => _ end) => destruct x
      | |- emits_only _ (if ?x then _ else _) => destruct x
      end ].

(** ** Projections of a trace *)

Lemma progress_of_app a b : progress_of (a ++ b) = (progress_of a ++ progress_of b)%list.
Proof. apply flat_map_app. Qed.

Lemma completions_app a b : completions (a ++ b) = (completions a ++ completions b)%list.
Proof. apply flat_map_app. Qed.

Lemma deletions_app a b : deletions (a ++ b) = (deletions a ++ deletions b)%list.
Proof. apply flat_map_app. Qed.

Lemma downloads_app a b : downloads (a ++ b) = (downloads a ++ downloads b)%list.
Proof. apply flat_map_app. Qed.

Lemma execs_app a b : execs (a ++ b) = (execs a ++ execs b)%list.
Proof. apply flat_map_app. Qed.

Lemma flat_map_nil_Forall {A B} (P : A -> Prop) (f : A -> list B) l :
  (forall a, P a -> f a = []) -> Forall P l -> flat_map f l = [].
Proof.
  intros Hf. induction 1 as [| a l Ha _ IH]; simpl; [reflexivity |].
  rewrite (Hf a Ha), IH. reflexivity.
Qed.

(** ** The components of the pipeline *)

Section Components.

Context {W : Type} `{OS W}.

(** Looking a recipe up only reads the machine. *)
Lemma find_package_toml_reads package_name w w1 evs o :
  find_package_toml package_name w = (w1, evs, o) -> w1 = w /\ evs = [].
Proof.
  unfold find_package_toml, try_except, bind, asking, ret, raise.
  destruct (find_in_walk package_name (os_walk SOURCES_BASE_DIR w));
    intros [= <- <- <-]; auto.
Qed.

(** Loading a recipe only reads the machine, and hands the parser's
    result on as it is. *)
Lemma load_package_info_eq toml_path w :
  load_package_info toml_path w =
  (w, [],
   match os_read toml_path w with
   | inl e => inl ("Oops, couldn’t load the TOML file: " ++ e)
   | inr text =>
       match toml_loads text with
       | inl e => inl ("Oops, couldn’t load the TOML file: " ++ e)
       | inr info => inr info
       end
   end).
Proof.
  unfold load_package_info, try_except, bind, reading, of_result, raise.
  destruct (os_read toml_path w) as [e | text]; [reflexivity |].
  destruct (toml_loads text) as [e | info]; reflexivity.
Qed.

Lemma load_package_info_reads toml_path w w1 evs o :
  load_package_info toml_path w = (w1, evs, o) -> w1 = w /\ evs = [].
Proof. rewrite load_package_info_eq. intros [= <- <- <-]; auto. Qed.

Lemma fetch_source_emits url dest_dir :
  emits_only fetch_event (fetch_source url dest_dir).
Proof.
  unfold fetch_source, status_label_setText. emits.
  intros w. unfold urlretrieve, events_of.
  destruct (urllib_urlretrieve _ _ w). repeat constructor.
Qed.

Lemma extract_tarball_silent tarball dest_dir w :
  events_of (extract_tarball tarball dest_dir w) = [].
Proof.
  unfold extract_tarball, try_except, bind, calling, reading, asking, ret,
    raise, events_of.
  destruct (tarfile_extractall tarball dest_dir w) as [w1 [e | []]]; simpl;
    [reflexivity |].
  destruct (os_listdir dest_dir w1); reflexivity.
Qed.

Lemma run_command_emits src_dir stage cmd :
  emits_only build_event (run_command src_dir stage cmd).
Proof.
  unfold run_command, status_label_setText. emits.
  intros w. unfold run_shell, events_of.
  destruct (subprocess_run _ _ w). repeat constructor.
Qed.

Lemma run_commands_emits src_dir stage commands :
  emits_only build_event (run_commands src_dir stage commands).
Proof.
  induction commands as [| cmd rest IH]; simpl.
  - apply emits_only_ret.
  - apply emits_only_bind; [apply run_command_emits | intros _; exact IH].
Qed.

Lemma build_package_emits src_dir commands stage :
  emits_only build_event (build_package src_dir commands stage).
Proof.
  unfold build_package. apply emits_only_try_except.
  - apply run_commands_emits.
  - intros e. apply emits_only_raise.
Qed.

(** One turn of the loop: the command is handed to the shell once; the
    turn succeeds exactly when the command exits with status 0. *)
Lemma run_command_spec src_dir stage cmd w w1 evs o :
  run_command src_dir stage cmd w = (w1, evs, o) ->
  exists r,
    execs evs = [(cmd, src_dir, r)] /\
    match o with
    | inr _ => exec_ok (cmd, src_dir, r)
    | inl msg => ~ exec_ok (cmd, src_dir, r) /\ msg = loop_error stage r
    end.
Proof.
  unfold run_command, bind, status_label_setText, emit, run_shell, of_result,
    raise, ret, exec_ok.
  destruct (subprocess_run cmd src_dir w) as [w2 [e | cp]]; simpl.
  - intros [= <- <- <-]. exists (inl e). simpl. auto.
  - destruct (Z.eqb_spec (returncode cp) 0) as [Hz | Hnz]; simpl.
    + intros [= <- <- <-]. exists (inr cp). simpl. auto.
    + destruct (bytes_decode (stderr cp)) as [e | t] eqn:Ed;
        intros [= <- <- <-]; exists (inr cp); unfold loop_error;
        rewrite Ed; simpl; auto.
Qed.

(** The loop: either every command ran to exit status 0, or the
    commands before some command ran to exit status 0, that command did
    not, and nothing after it was handed to the shell. *)
Lemma run_commands_spec src_dir stage commands : forall w w1 evs o,
  run_commands src_dir stage commands w = (w1, evs, o) ->
  match o with
  | inr _ => ran src_dir commands (execs evs)
  | inl msg =>
      exists before cmd rest l r,
        commands = (before ++ cmd :: rest)%list /\
        execs evs = (l ++ [(cmd, src_dir, r)])%list /\
        ran src_dir before l /\
        ~ exec_ok (cmd, src_dir, r) /\
        msg = loop_error stage r
  end.
Proof.
  induction commands as [| cmd rest IH]; intros w w1 evs o; simpl.
  - intros [= <- <- <-]. split; simpl; constructor.
  - intros Hb. apply bind_inv in Hb as [(e & Hc & ->) | (w2 & ev1 & [] & ev2 & Hc & Hr & ->)].
    + apply run_command_spec in Hc as (r & He & Hbad & Hmsg).
      exists [], cmd, rest, [], r. repeat split; auto.
    + apply run_command_spec in Hc as (r & He & Hok).
      apply IH in Hr. rewrite execs_app, He.
      destruct o as [msg | []].
      * destruct Hr as (before & c & rest' & l & r' & -> & Hl & [Hm Hf] & Hbad & Hmsg).
        exists (cmd :: before), c, rest', ((cmd, src_dir, r) :: l), r'.
        rewrite Hl. repeat split; simpl; auto. now rewrite Hm.
      * destruct Hr as [Hm Hf]. split; simpl; [now rewrite Hm | auto].
Qed.

Lemma build_package_spec src_dir commands stage w w1 evs o :
  build_package src_dir commands stage w = (w1, evs, o) ->
  match o with
  | inr _ => ran src_dir commands (execs evs)
  | inl msg =>
      exists before cmd rest l r,
        commands = (before ++ cmd :: rest)%list /\
        execs evs = (l ++ [(cmd, src_dir, r)])%list /\
        ran src_dir before l /\
        ~ exec_ok (cmd, src_dir, r) /\
        msg = "Oh no, the build failed: " ++ loop_error stage r
  end.
Proof.
  unfold build_package. intros Ht.
  apply try_except_inv in Ht as [([] & Hr & ->) | (w2 & ev1 & e & ev2 & Hr & Hh & ->)].
  - apply run_commands_spec in Hr. exact Hr.
  - unfold raise in Hh. injection Hh as <- <- <-.
    apply run_commands_spec in Hr.
    destruct Hr as (before & c & rest & l & r & -> & Hl & Hran & Hbad & ->).
    rewrite app_nil_r. exists before, c, rest, l, r. auto.
Qed.

End Components.

(** ** Commands after a failure, and progress values, by composition *)

Lemma Forall_stops l : Forall exec_ok l -> stops_at_failure l.
Proof.
  intros Hok l1 x l2 -> Hbad. apply Forall_app in Hok as [_ Hx].
  inversion Hx; subst. contradiction.
Qed.

Lemma stops_app l1 l2 :
  Forall exec_ok l1 -> stops_at_failure l2 -> stops_at_failure (l1 ++ l2).
Proof.
  intros Hok Hs a x b Heq Hbad.
  apply app_eq_app in Heq as [l [[-> Hl] | [-> Hl]]].
  - destruct l as [| y l'].
    + simpl in Hl. apply (Hs [] x b); auto.
    + injection Hl as <- _. apply Forall_app in Hok as [_ Hx].
      inversion Hx; subst. contradiction.
  - apply (Hs l x b); auto.
Qed.

Lemma stops_snoc l x : Forall exec_ok l -> stops_at_failure (l ++ [x]).
Proof.
  intros Hok. apply stops_app; [exact Hok |].
  intros [| y l1] z l2 Heq _.
  - now injection Heq as _ <-.
  - injection Heq as _ Heq. now destruct l1.
Qed.

Lemma no_exec_execs evs : Forall no_exec evs -> execs evs = [].
Proof.
  apply flat_map_nil_Forall. intros [] He; simpl in He; easy.
Qed.

Lemma no_progress_progress evs : Forall no_progress evs -> progress_of evs = [].
Proof.
  apply flat_map_nil_Forall. intros [] He; simpl in He; easy.
Qed.

Section Composition.

Context {W : Type}.

Lemma fail_stop_quiet {A} (m : M W A) : emits_only no_exec m -> fail_stop m.
Proof.
  intros Hm w. rewrite (no_exec_execs _ (Hm w)).
  destruct (outcome_of (m w)); [apply Forall_stops |]; constructor.
Qed.

Lemma fail_stop_bind {A B} (m : M W A) (f : A -> M W B) :
  fail_stop m -> (forall a, fail_stop (f a)) -> fail_stop (bind m f).
Proof.
  intros Hm Hf w. specialize (Hm w). unfold bind, outcome_of, events_of in *.
  destruct (m w) as [[w1 ev1] [e | a]]; simpl in *; [exact Hm |].
  specialize (Hf a w1). unfold outcome_of, events_of in Hf.
  destruct (f a w1) as [[w2 ev2] [e | b]]; simpl in *; rewrite execs_app.
  - now apply stops_app.
  - now apply Forall_app.
Qed.

Lemma reports_quiet {A} (m : M W A) : emits_only no_progress m -> reports [] m.
Proof.
  intros Hm w. rewrite (no_progress_progress _ (Hm w)).
  destruct (outcome_of (m w)); [exists []|]; reflexivity.
Qed.

Lemma reports_progress n : reports [n] (@emit W (Progress n)).
Proof. intros w. reflexivity. Qed.

Lemma reports_bind {A B} l1 l2 (m : M W A) (f : A -> M W B) :
  reports l1 m -> (forall a, reports l2 (f a)) -> reports (l1 ++ l2) (bind m f).
Proof.
  intros Hm Hf w. specialize (Hm w). unfold bind, outcome_of, events_of in *.
  destruct (m w) as [[w1 ev1] [e | a]]; simpl in *.
  - destruct Hm as [t ->]. exists (t ++ l2)%list. now rewrite app_assoc.
  - specialize (Hf a w1). unfold outcome_of, events_of in Hf.
    destruct (f a w1) as [[w2 ev2] [e | b]]; simpl in *; rewrite progress_of_app, Hm.
    + destruct Hf as [t ->]. exists t. now rewrite app_assoc.
    + now rewrite Hf.
Qed.

Lemma reports_eq {A} l l' (m : M W A) : reports l m -> l = l' -> reports l' m.
Proof. now intros Hm <-. Qed.

End Composition.

Section Stages.

Context {W : Type} `{OS W}.

Lemma find_package_toml_emits P package_name :
  emits_only P (find_package_toml package_name).
Proof.
  intros w. unfold events_of.
  destruct (find_package_toml package_name w) as [[w1 evs] o] eqn:E.
  apply find_package_toml_reads in E as [_ ->]. constructor.
Qed.

Lemma load_package_info_emits P toml_path :
  emits_only P (load_package_info toml_path).
Proof. intros w. rewrite load_package_info_eq. constructor. Qed.

Lemma extract_tarball_emits P tarball dest_dir :
  emits_only P (extract_tarball tarball dest_dir).
Proof. intros w. rewrite extract_tarball_silent. constructor. Qed.

Lemma fetch_source_emits_only (P : event -> Prop) url dest_dir :
  (forall e, fetch_event e -> P e) -> emits_only P (fetch_source url dest_dir).
Proof. intros HP. eapply emits_only_weaken; [exact HP | apply fetch_source_emits]. Qed.

Lemma build_package_emits_only (P : event -> Prop) src_dir commands stage :
  (forall e, build_event e -> P e) ->
  emits_only P (build_package src_dir commands stage).
Proof. intros HP. eapply emits_only_weaken; [exact HP | apply build_package_emits]. Qed.

Lemma build_package_fail_stop src_dir commands stage :
  fail_stop (build_package src_dir commands stage).
Proof.
  intros w. unfold outcome_of, events_of.
  destruct (build_package src_dir commands stage w) as [[w1 evs] o] eqn:E.
  apply build_package_spec in E. simpl. destruct o as [msg | []].
  - destruct E as (before & cmd & rest & l & r & _ & -> & [_ Hok] & _).
    now apply stops_snoc.
  - now destruct E.
Qed.

End Stages.

(** Events of the pipeline, by kind. *)
Ltac event_kind := intros [] ?; simpl in *; easy.

Ltac quiet :=
  repeat first
    [ apply find_package_toml_emits
    | apply load_package_info_emits
    | apply extract_tarball_emits
    | apply fetch_source_emits_only; event_kind
    | apply build_package_emits_only; event_kind
    | apply emits_only_emit; exact I
    | solve [ auto with emits ]
    | apply emits_only_bind; [ | intros ? ]
    | apply emits_only_try_except; [ | intros ? ]
    | match goal with
      | |- emits_only _ (match ?x with _ => _ end) => destruct x
      | |- emits_only _ (if ?x then _ else _) => destruct x
      end ].

Ltac fail_stops :=
  repeat first
    [ apply build_package_fail_stop
    | apply fail_stop_bind; [ | intros ? ]
    | apply fail_stop_quiet; solve [ quiet ]
    | match goal with
      | |- fail_stop (match ?x with _ => _ end) => destruct x
      end ].

Ltac reporting :=
  repeat first
    [ apply reports_progress
    | eapply reports_bind; [ | intros ? ]
    | apply reports_quiet; solve [ quiet ] ].

Section Job.

Context {W : Type} `{OS W}.

Lemma stages_split package_name w :
  stages package_name w =
  bind (load_recipe package_name)
    (fun loaded => fetch_and_build (fst (fst loaded)) (snd (fst loaded)) (snd loaded)) w.
Proof.
  change (stages package_name) with
    (toml_path <- find_package_toml package_name;;
     package_info <- load_package_info toml_path;;
     package <- getitem "package" (pi_package package_info);;
     build <- getitem "build" (pi_build package_info);;
     fetch_and_build toml_path package build).
  unfold load_recipe, bind, getitem, ret, raise.
  destruct (find_package_toml package_name w) as [[w1 ev1] [e | toml_path]];
    [reflexivity |].
  destruct (load_package_info toml_path w1) as [[w2 ev2] [e | info]];
    [reflexivity |].
  destruct (pi_package info); [| reflexivity].
  destruct (pi_build info); [| reflexivity].
  simpl. rewrite !app_nil_r.
  destruct (fetch_and_build toml_path p b w2) as [[w3 ev3] o].
  now rewrite app_assoc.
Qed.

(** The first half only reads the machine; when it returns, the recipe
    was found and parsed and holds both tables. *)
Lemma load_recipe_spec package_name w w1 evs o :
  load_recipe package_name w = (w1, evs, o) ->
  w1 = w /\ evs = [] /\
  match o with
  | inr (toml_path, package, build) =>
      exists info,
        find_package_toml package_name w = (w, [], inr toml_path) /\
        load_package_info toml_path w = (w, [], inr info) /\
        pi_package info = Some package /\ pi_build info = Some build
  | inl e => True
  end.
Proof.
  unfold load_recipe, bind, getitem, ret, raise.
  destruct (find_package_toml package_name w) as [[w2 ev2] o2] eqn:Ef.
  destruct (find_package_toml_reads _ _ _ _ _ Ef) as [-> ->].
  destruct o2 as [e | toml_path]; [intros [= <- <- <-]; auto |].
  destruct (load_package_info toml_path w) as [[w3 ev3] o3] eqn:El.
  destruct (load_package_info_reads _ _ _ _ _ El) as [-> ->].
  destruct o3 as [e | info]; [intros [= <- <- <-]; auto |].
  destruct (pi_package info) as [package |] eqn:Ep; [| intros [= <- <- <-]; auto].
  destruct (pi_build info) as [build |] eqn:Eb; intros [= <- <- <-]; auto.
  repeat split. exists info. auto.
Qed.

Lemma configure_stage_reports src_dir b :
  reports (if declared (configure b) then [60%Z] else []) (configure_stage src_dir b).
Proof.
  unfold configure_stage. destruct (configure b); simpl.
  - eapply reports_eq; [reporting | reflexivity].
  - apply reports_quiet. quiet.
Qed.

Lemma compile_stage_reports src_dir b :
  reports (if declared (compile b) then [80%Z] else []) (compile_stage src_dir b).
Proof.
  unfold compile_stage. destruct (compile b); simpl.
  - eapply reports_eq; [reporting | reflexivity].
  - apply reports_quiet. quiet.
Qed.

Lemma install_stage_reports src_dir b :
  reports (if declared (install b) then [90%Z] else []) (install_stage src_dir b).
Proof.
  unfold install_stage. destruct (install b); simpl.
  - eapply reports_eq; [reporting | reflexivity].
  - apply reports_quiet. quiet.
Qed.

Lemma fetch_and_build_reports toml_path package b :
  reports (stage_milestones b) (fetch_and_build toml_path package b).
Proof.
  eapply reports_eq.
  - unfold fetch_and_build.
    repeat first
      [ apply configure_stage_reports
      | apply compile_stage_reports
      | apply install_stage_reports
      | apply reports_progress
      | eapply reports_bind; [ | intros ? ]
      | apply reports_quiet; solve [ quiet ] ].
  - simpl. now rewrite app_nil_r.
Qed.

Lemma stages_emits package_name : emits_only stage_event (stages package_name).
Proof.
  unfold stages, configure_stage, compile_stage, install_stage. quiet.
Qed.

Lemma cleanup_spec src_dir tarball w w1 evs o :
  cleanup src_dir tarball w = (w1, evs, o) ->
  match o with
  | inr _ => evs = [Rmtree src_dir; Remove tarball]
  | inl _ => evs = [Rmtree src_dir] \/ evs = [Rmtree src_dir; Remove tarball]
  end.
Proof.
  unfold cleanup, rmtree, remove, bind, emit, calling.
  destruct (shutil_rmtree src_dir w) as [w2 [e | []]]; simpl.
  - intros [= <- <- <-]. auto.
  - destruct (os_remove tarball w2) as [w3 [e | []]]; simpl;
      intros [= <- <- <-]; auto.
Qed.

(** The job, by the outcome of its stages and of the clean-up. *)
Lemma run_eq package_name w :
  run package_name w =
  match stages package_name w with
  | (w1, ev1, inl e) =>
      (w1, (ev1 ++ [Finished false ("Failed: " ++ e) e])%list, inr tt)
  | (w1, ev1, inr built) =>
      match cleanup (fst built) (snd built) w1 with
      | (w2, ev2, inl e) =>
          (w2, (ev1 ++ ev2 ++ [Finished false ("Failed: " ++ e) e])%list, inr tt)
      | (w2, ev2, inr _) =>
          (w2,
           (ev1 ++ ev2 ++
            [Progress 100; Finished true ("'" ++ package_name ++ "' installed") ""])%list,
           inr tt)
      end
  end.
Proof.
  unfold run, try_except, bind, emit.
  destruct (stages package_name w) as [[w1 ev1] [e | built]]; [reflexivity |].
  destruct (cleanup (fst built) (snd built) w1) as [[w2 ev2] [e | []]]; simpl.
  - now rewrite <- app_assoc.
  - reflexivity.
Qed.

Lemma stages_progress package_name w w1 evs o :
  stages package_name w = (w1, evs, o) ->
  match o with
  | inr _ =>
      exists b, loaded_build package_name w = Some b /\
                progress_of evs = stage_milestones b
  | inl _ =>
      exists t,
        match loaded_build package_name w with
        | Some b => stage_milestones b
        | None => []
        end = (progress_of evs ++ t)%list
  end.
Proof.
  rewrite stages_split. intros Hs.
  apply bind_inv in Hs as [(e & Hl & ->) | (w2 & ev1 & [[toml_path package] b] & ev2 & Hl & Hf & ->)].
  - apply load_recipe_spec in Hl as (_ & -> & _). simpl. eauto.
  - apply load_recipe_spec in Hl as (-> & -> & info & Hfind & Hload & Hp & Hb).
    assert (Hlb : loaded_build package_name w = Some b).
    { unfold loaded_build. rewrite Hfind. cbn [outcome_of snd].
      rewrite Hload. cbn [outcome_of snd]. now rewrite Hp. }
    rewrite Hlb. simpl in Hf. simpl.
    pose proof (fetch_and_build_reports toml_path package b w) as Hr.
    rewrite Hf in Hr. simpl in Hr. destruct o; eauto.
Qed.

End Job.

(** A job whose second compile command fails: nothing runs after it,
    the progress stops at 50, and the extracted directory and the
    downloaded file stay on the machine. *)
Example failing_job :
  events_of (run "broken" Sim.w0) =
  [ Message "Loaded: broken.toml"; Progress 10;
    Download "https://example.org/pkg-1.0.tar.gz"
      "/home/user/sources/broken/pkg-1.0.tar.gz";
    StatusLabel "Got it! Downloaded pkg-1.0.tar.gz";
    Progress 30; Progress 50;
    Message "Compiling..."; StatusLabel "Compiling: make";
    Exec "make" "/home/user/sources/build/pkg-1.0" (inr (Sim.exited 0 ""));
    StatusLabel "Compiling done"; StatusLabel "Compiling: ls /nonexistent";
    Exec "ls /nonexistent" "/home/user/sources/build/pkg-1.0"
      (inr (Sim.exited 2
              ("ls: cannot access '/nonexistent': No such file or directory"
               ++ Sim.nl)));
    Finished false
      ("Failed: Oh no, the build failed: Compiling didn’t work: "
       ++ "ls: cannot access '/nonexistent': No such file or directory" ++ Sim.nl)
      ("Oh no, the build failed: Compiling didn’t work: "
       ++ "ls: cannot access '/nonexistent': No such file or directory" ++ Sim.nl) ] /\
  os_path_isdir "/home/user/sources/build/pkg-1.0" (world_of (run "broken" Sim.w0))
  = true /\
  os_path_exists "/home/user/sources/broken/pkg-1.0.tar.gz"
    (world_of (run "broken" Sim.w0)) = true.
Proof. repeat split; vm_compute; reflexivity. Qed.

(** ** Progress values *)

Lemma StronglySorted_app_l {A} (R : A -> A -> Prop) (a b : list A) :
  StronglySorted R (a ++ b) -> StronglySorted R a.
Proof.
  induction a as [| x a IH]; simpl; intros Hs; [constructor |].
  apply StronglySorted_inv in Hs as [Hs Hx].
  constructor; [now apply IH |]. now apply Forall_app in Hx as [Hx _].
Qed.

Lemma milestones_split b : milestones b = (stage_milestones b ++ [100%Z])%list.
Proof.
  unfold milestones, stage_milestones.
  destruct (configure b), (compile b), (install b); reflexivity.
Qed.

Lemma milestones_sorted b : StronglySorted Z.le (milestones b).
Proof.
  unfold milestones.
  destruct (configure b), (compile b), (install b); simpl;
    repeat constructor; lia.
Qed.

Lemma milestones_fixed b :
  Forall (fun p => In p [10; 30; 50; 60; 80; 90; 100]%Z) (milestones b).
Proof.
  unfold milestones.
  destruct (configure b), (compile b), (install b); simpl;
    repeat (apply Forall_cons; [simpl; tauto |]); apply Forall_nil.
Qed.

Lemma milestones_declared b :
  (In 60%Z (milestones b) -> declared (configure b) = true) /\
  (In 80%Z (milestones b) -> declared (compile b) = true) /\
  (In 90%Z (milestones b) -> declared (install b) = true).
Proof.
  unfold milestones.
  destruct (configure b), (compile b), (install b); simpl;
    repeat split; intros Hin; try reflexivity;
    repeat (destruct Hin as [Hin | Hin]; [discriminate |]); contradiction.
Qed.

Lemma stage_milestones_below b : ~ In 100%Z (stage_milestones b).
Proof.
  unfold stage_milestones.
  destruct (configure b), (compile b), (install b); simpl; intros Hin;
    repeat (destruct Hin as [Hin | Hin]; [discriminate |]); contradiction.
Qed.

(** The progress values of a job are a prefix of the milestones of its
    recipe; the prefix is the whole list exactly when the job succeeds,
    and there is one completion event. *)
Lemma run_progress {W} `{OS W} package_name (w : W) :
  exists ok t,
    completions (events_of (run package_name w)) = [ok] /\
    match loaded_build package_name w with
    | Some b => milestones b
    | None => []
    end = (progress_of (events_of (run package_name w)) ++ t)%list /\
    (In 100%Z (progress_of (events_of (run package_name w))) <-> ok = true).
Proof.
  rewrite run_eq.
  destruct (stages package_name w) as [[w1 ev1] o] eqn:Hs.
  pose proof (stages_emits package_name w) as Hq. rewrite Hs in Hq.
  assert (Hc1 : completions ev1 = []).
  { eapply flat_map_nil_Forall; [| exact Hq]. intros [] He; simpl in He; easy. }
  apply stages_progress in Hs.
  destruct o as [e | built].
  - destruct Hs as [t Ht]. exists false.
    unfold events_of; simpl. rewrite completions_app, progress_of_app, Hc1.
    simpl. rewrite app_nil_r.
    destruct (loaded_build package_name w) as [b |].
    + exists (t ++ [100%Z])%list. split; [reflexivity |]. split.
      * now rewrite milestones_split, Ht, app_assoc.
      * split; [| discriminate]. intros Hin.
        exfalso. apply (stage_milestones_below b). rewrite Ht.
        apply in_or_app. now left.
    + exists t. split; [reflexivity |]. split; [exact Ht |].
      split; [| discriminate]. intros Hin. symmetry in Ht.
      apply app_eq_nil in Ht as [Ht _]. rewrite Ht in Hin. contradiction.
  - destruct Hs as (b & Hb & Hp). rewrite Hb, milestones_split.
    pose proof (stage_milestones_below b) as Hbelow.
    remember (stage_milestones b) as sm eqn:Hsm.
    destruct (cleanup (fst built) (snd built) w1) as [[w2 ev2] o2] eqn:Hcl.
    apply cleanup_spec in Hcl.
    destruct o2 as [e | []].
    + exists false, [100%Z]. unfold events_of; simpl.
      rewrite !completions_app, !progress_of_app, Hc1, Hp.
      destruct Hcl as [-> | ->]; simpl; rewrite app_nil_r;
        (split; [reflexivity |]); (split; [reflexivity |]);
        (split; [| discriminate]); intros Hin; contradiction.
    + exists true, []. subst ev2. unfold events_of; simpl.
      rewrite !completions_app, !progress_of_app, Hc1, Hp. simpl.
      rewrite app_nil_r. split; [reflexivity |]. split; [reflexivity |].
      split; [reflexivity |]. intros _. apply in_or_app. right. now left.
Qed.

(** C2. For every job, the progress values it emits are non-decreasing
    and drawn from 10, 30, 50, 60, 80, 90, 100; they are a prefix of the
    milestones of the recipe it loaded, in which a skipped stage leaves
    the later values as they are; 60, 80 and 90 appear only when the
    configure, compile and install stage is declared; there is exactly
    one completion event, and 100 is emitted exactly when it reports
    success. *)
Theorem progress_is_monotone_milestones {W} `{OS W} package_name (w : W) :
  let evs := events_of (run package_name w) in
  StronglySorted Z.le (progress_of evs) /\
  Forall (fun p => In p [10; 30; 50; 60; 80; 90; 100]%Z) (progress_of evs) /\
  (exists t,
      match loaded_build package_name w with
      | Some b => milestones b
      | None => []
      end = (progress_of evs ++ t)%list) /\
  (In 60%Z (progress_of evs) ->
   exists b, loaded_build package_name w = Some b /\ declared (configure b) = true) /\
  (In 80%Z (progress_of evs) ->
   exists b, loaded_build package_name w = Some b /\ declared (compile b) = true) /\
  (In 90%Z (progress_of evs) ->
   exists b, loaded_build package_name w = Some b /\ declared (install b) = true) /\
  exists ok, completions evs = [ok] /\ (In 100%Z (progress_of evs) <-> ok = true).
Proof.
  intros evs. subst evs.
  destruct (run_progress package_name w) as (ok & t & Hc & Hp & H100).
  set (ps := progress_of (events_of (run package_name w))) in *.
  assert (Hwhole : exists b, loaded_build package_name w = Some b /\ milestones b = (ps ++ t)%list
                   \/ ps = []).
  { destruct (loaded_build package_name w) as [b |].
    - exists b. left. auto.
    - exists {| configure := None; compile := None; install := None |}. right.
      symmetry in Hp. now apply app_eq_nil in Hp as [Hp _]. }
  destruct Hwhole as [b [[Hb Hm] | Hnil]].
  - pose proof (milestones_declared b) as (H60 & H80 & H90).
    rewrite Hm in H60, H80, H90.
    split; [apply StronglySorted_app_l with (b := t); rewrite <- Hm; apply milestones_sorted |].
    split; [pose proof (milestones_fixed b) as Hf; rewrite Hm in Hf;
            now apply Forall_app in Hf as [Hf _] |].
    split; [exists t; exact Hp |].
    repeat split; try (intros Hin; exists b; split; [exact Hb |];
      first [apply H60 | apply H80 | apply H90]; apply in_or_app; now left).
    exists ok. auto.
  - rewrite Hnil in *.
    split; [constructor |]. split; [constructor |].
    split; [exists t; exact Hp |].
    repeat split; try (intros []). exists ok. auto.
Qed.

(** ** Clean-up *)

(** C3. For every job: when the stages (load, fetch, extract, configure,
    compile, install) raise, the job ends at once with the failure
    completion event, on the machine as the stages left it, and calls
    neither [shutil.rmtree] nor [os.remove]; when the stages return, they
    have deleted nothing, and the deletions follow them: the extracted
    directory first, then the downloaded file. *)
Theorem cleanup_only_after_all_stages {W} `{OS W} package_name (w : W) :
  match stages package_name w with
  | (w1, ev1, inl e) =>
      run package_name w =
        (w1, (ev1 ++ [Finished false ("Failed: " ++ e) e])%list, inr tt) /\
      deletions (events_of (run package_name w)) = []
  | (w1, ev1, inr (src_dir, tarball)) =>
      deletions ev1 = [] /\
      exists ev2,
        events_of (run package_name w) = (ev1 ++ ev2)%list /\
        (ev2 = [Rmtree src_dir; Remove tarball; Progress 100;
                Finished true ("'" ++ package_name ++ "' installed") ""] \/
         exists e,
           ev2 = [Rmtree src_dir; Finished false ("Failed: " ++ e) e] \/
           ev2 = [Rmtree src_dir; Remove tarball;
                  Finished false ("Failed: " ++ e) e])
  end.
Proof.
  rewrite run_eq.
  pose proof (stages_emits package_name w) as Hq.
  destruct (stages package_name w) as [[w1 ev1] [e | [src_dir tarball]]];
    unfold events_of in Hq; simpl in Hq;
    assert (Hd : deletions ev1 = [])
      by (eapply flat_map_nil_Forall; [| exact Hq]; intros [] He; simpl in He; easy).
  - split; [reflexivity |]. unfold events_of; simpl.
    now rewrite deletions_app, Hd.
  - split; [exact Hd |]. simpl.
    destruct (cleanup src_dir tarball w1) as [[w2 ev2] o] eqn:Hc.
    apply cleanup_spec in Hc. destruct o as [e | []]; unfold events_of; simpl.
    + eexists. split; [reflexivity |]. right. exists e.
      destruct Hc as [-> | ->]; simpl; auto.
    + eexists. split; [reflexivity |]. left. now subst ev2.
Qed.

(** ** The build executor *)

Lemma stages_fail_stop {W} `{OS W} package_name :
  fail_stop (stages package_name : M W _).
Proof.
  unfold stages, configure_stage, compile_stage, install_stage. fail_stops.
Qed.

Lemma run_stops_at_failure {W} `{OS W} package_name (w : W) :
  stops_at_failure (execs (events_of (run package_name w))).
Proof.
  rewrite run_eq. pose proof (stages_fail_stop package_name w) as Hs.
  unfold outcome_of, events_of in *.
  destruct (stages package_name w) as [[w1 ev1] [e | built]]; simpl in *.
  - rewrite execs_app. simpl. now rewrite app_nil_r.
  - apply Forall_stops.
    destruct (cleanup (fst built) (snd built) w1) as [[w2 ev2] o] eqn:Hc.
    apply cleanup_spec in Hc.
    destruct o as [e | []]; simpl; [destruct Hc as [-> | ->] | subst ev2];
      rewrite execs_app; simpl; now rewrite app_nil_r.
Qed.

(** C1, as the program has it.  The build executor raises exactly when
    a command it handed to the shell did not exit with status 0: the
    commands before it all exited with status 0, nothing after it is
    handed to the shell, in this stage or, within a job, in any later
    one.  The text of the error is [Oh no, the build failed: ] followed,
    when the command exited with a non-zero status, by the stage name,
    [ didn’t work: ] and the decoded standard error of that command. *)
Theorem build_failure_fidelity {W} `{OS W} src_dir commands stage (w : W) :
  let r := build_package src_dir commands stage w in
  match outcome_of r with
  | inr _ => ran src_dir commands (execs (events_of r))
  | inl msg =>
      exists before cmd rest l res,
        commands = (before ++ cmd :: rest)%list /\
        execs (events_of r) = (l ++ [(cmd, src_dir, res)])%list /\
        ran src_dir before l /\
        match res with
        | inl e => msg = "Oh no, the build failed: " ++ e
        | inr cp =>
            returncode cp <> 0%Z /\
            msg = "Oh no, the build failed: " ++
                  match bytes_decode (stderr cp) with
                  | inr error_msg => stage ++ " didn’t work: " ++ error_msg
                  | inl e => e
                  end
        end
  end /\
  ((exists msg, outcome_of r = inl msg) <->
   Exists (fun x => ~ exec_ok x) (execs (events_of r))) /\
  (forall package_name w', stops_at_failure (execs (events_of (run package_name w')))).
Proof.
  intros r. subst r.
  destruct (build_package src_dir commands stage w) as [[w1 evs] o] eqn:Hb.
  apply build_package_spec in Hb. unfold outcome_of, events_of. simpl.
  split; [| split].
  - destruct o as [msg | []]; [| exact Hb].
    destruct Hb as (before & cmd & rest & l & res & Hc & He & Hran & Hbad & Hmsg).
    exists before, cmd, rest, l, res.
    split; [exact Hc |]. split; [exact He |]. split; [exact Hran |].
    destruct res as [e | cp]; [exact Hmsg |]. split; [| exact Hmsg].
    intros Hz. apply Hbad. exact Hz.
  - destruct o as [msg | []].
    + destruct Hb as (before & cmd & rest & l & res & Hc & He & Hran & Hbad & Hmsg).
      split; [intros _ | eauto]. rewrite He. apply Exists_app. right.
      now constructor.
    + destruct Hb as [_ Hok]. split; [intros [msg Hm]; discriminate |].
      intros Hex. apply Exists_exists in Hex as (x & Hin & Hbad).
      rewrite Forall_forall in Hok. exfalso. apply Hbad. now apply Hok.
  - intros package_name w'. apply run_stops_at_failure.
Qed.

(** C1, as stated, fails on the program: the text of the error is not the
    standard error of the failing command but a longer text that ends
    with it; and the executor also fails when no command exits with a
    non-zero status, because the shell cannot be started in a directory
    that does not exist. *)
Lemma build_error_text_is_not_stderr :
  (exists cp msg,
      execs (events_of (build_package "/home/user/sources" ["ls /nonexistent"]
                          "Compiling" Sim.w0))
      = [("ls /nonexistent", "/home/user/sources", inr cp)] /\
      returncode cp = 2%Z /\
      outcome_of (build_package "/home/user/sources" ["ls /nonexistent"]
                    "Compiling" Sim.w0) = inl msg /\
      msg <> stderr cp) /\
  (exists msg,
      outcome_of (build_package "/nowhere" ["make"] "Compiling" Sim.w0) = inl msg /\
      Forall (fun x => ~ exited_nonzero (snd x))
        (execs (events_of (build_package "/nowhere" ["make"] "Compiling" Sim.w0)))).
Proof.
  split.
  - eexists. eexists. split; [vm_compute; reflexivity |].
    split; [reflexivity |]. split; [vm_compute; reflexivity |].
    vm_compute. discriminate.
  - eexists. split; [vm_compute; reflexivity |].
    vm_compute. repeat constructor. intros [].
Qed.

(** ** The fetcher *)

(** C4. For every URL and destination directory: when a file with the
    base name of the URL exists in the destination, the fetcher returns
    its path, leaves the machine as it is and emits nothing, so neither
    a download nor a status text; when a first call returned and the
    file is in place after it, the path it returned is that of the
    file, and a second call returns the same path and emits nothing; a
    status text is emitted only together with the download of a file
    that was absent. *)
Theorem fetch_source_idempotent {W} `{OS W} url dest_dir (w : W) :
  let filename := os_path.join dest_dir (os_path.basename url) in
  (os_path_exists filename w = true ->
   fetch_source url dest_dir w = (w, [], inr filename)) /\
  (forall w1 evs p,
     fetch_source url dest_dir w = (w1, evs, inr p) ->
     os_path_exists p w1 = true ->
     p = filename /\ fetch_source url dest_dir w1 = (w1, [], inr p)) /\
  (status_texts (events_of (fetch_source url dest_dir w)) <> [] ->
   os_path_exists filename w = false /\
   downloads (events_of (fetch_source url dest_dir w)) = [(url, filename)]).
Proof.
  intros filename. subst filename.
  assert (Hhit : forall w0,
             os_path_exists (os_path.join dest_dir (os_path.basename url)) w0 = true ->
             fetch_source url dest_dir w0 =
               (w0, [], inr (os_path.join dest_dir (os_path.basename url)))).
  { intros w0 Hex.
    unfold fetch_source, try_except, bind, asking, ret. now rewrite Hex. }
  split; [apply Hhit |]. split.
  - intros w1 evs p.
    unfold fetch_source, try_except, bind, asking, urlretrieve,
      status_label_setText, emit, ret, raise.
    destruct (os_path_exists _ w) eqn:Hex; simpl.
    + intros [= <- <- <-] _. split; [reflexivity |]. now apply Hhit.
    + destruct (urllib_urlretrieve _ _ w) as [w2 [e | []]] eqn:Hu; simpl;
        intros [= <- <- <-] Hex1.
      split; [reflexivity |]. now apply Hhit.
  - unfold fetch_source, try_except, bind, asking, urlretrieve,
      status_label_setText, emit, ret, raise, events_of.
    destruct (os_path_exists _ w) eqn:Hex; simpl.
    + intros Hne. now contradiction Hne.
    + destruct (urllib_urlretrieve _ _ w) as [w2 [e | []]]; simpl;
        intros Hne; [now contradiction Hne | auto].
Qed.

(** Fetching the archive of the end-to-end scenario twice. *)
Example fetch_twice :
  exists w1,
    fetch_source "https://example.org/pkg-1.0.tar.gz" "/home/user/sources/pkg" Sim.w0
    = (w1,
       [Download "https://example.org/pkg-1.0.tar.gz"
          "/home/user/sources/pkg/pkg-1.0.tar.gz";
        StatusLabel "Got it! Downloaded pkg-1.0.tar.gz"],
       inr "/home/user/sources/pkg/pkg-1.0.tar.gz") /\
    os_path_exists "/home/user/sources/pkg/pkg-1.0.tar.gz" w1 = true /\
    fetch_source "https://example.org/pkg-1.0.tar.gz" "/home/user/sources/pkg" w1
    = (w1, [], inr "/home/user/sources/pkg/pkg-1.0.tar.gz").
Proof.
  eexists. split; [vm_compute; reflexivity |].
  split; vm_compute; reflexivity.
Qed.

(** ** The single-job guard *)

(** C5. While an installation thread is running, [start_installation]
    shows an error dialog at once and changes nothing else: the thread,
    the progress bar and the selection are as before, and no new thread
    is created. *)
Theorem start_installation_single_flight (pm : PackageManager) :
  job_running pm = true ->
  exists box,
    title box = "Error" /\
    start_installation pm = show_message_box box pm /\
    dialogs (start_installation pm) = (dialogs pm ++ [box])%list /\
    install_thread (start_installation pm) = install_thread pm /\
    progress_bar_value (start_installation pm) = progress_bar_value pm /\
    progress_bar_visible (start_installation pm) = progress_bar_visible pm /\
    selected_package (start_installation pm) = selected_package pm.
Proof.
  intros Hrun. unfold start_installation. rewrite Hrun.
  destruct (no_selection pm);
    [ exists {| title := "Error"; text := "Hey, pick a package first!";
                details := "" |}
    | exists {| title := "Error";
                text := "Hold on, an installation’s already running!";
                details := "" |} ];
    repeat split.
Qed.

Lemma start_installation_single_flight_witness :
  let pm := {| selected_package := Some "tool";
               install_thread := Some {| package_name := "pkg"; isRunning := true |};
               progress_bar_visible := true;
               progress_bar_value := 30;
               dialogs := [] |} in
  job_running pm = true /\
  exists box,
    title box = "Error" /\
    start_installation pm = show_message_box box pm /\
    dialogs (start_installation pm) = (dialogs pm ++ [box])%list /\
    install_thread (start_installation pm) = install_thread pm /\
    progress_bar_value (start_installation pm) = progress_bar_value pm /\
    progress_bar_visible (start_installation pm) = progress_bar_visible pm /\
    selected_package (start_installation pm) = selected_package pm.
Proof.
  intros pm. split; [reflexivity |].
  apply (start_installation_single_flight pm). reflexivity.
Defined.

(** ** A recipe without a build table *)

(** C10. When the recipe of a package is found and parsed and has no
    [build] table, the job ends with the failure completion event and
    nothing else: the look-up of the table (or, before it, of the
    [package] table) raises [KeyError]; no progress is reported, nothing
    is fetched and the machine is left as it is. *)
Theorem missing_build_table_fails {W} `{OS W} package_name (w : W) toml_path info :
  outcome_of (find_package_toml package_name w) = inr toml_path ->
  outcome_of (load_package_info toml_path w) = inr info ->
  pi_build info = None ->
  exists key,
    (key = "package" \/ key = "build") /\
    run package_name w =
      (w, [Finished false ("Failed: " ++ PyStr.quote key) (PyStr.quote key)], inr tt).
Proof.
  intros Hfind Hload Hbuild.
  destruct (find_package_toml package_name w) as [[w1 ev1] o1] eqn:Ef.
  destruct (find_package_toml_reads _ _ _ _ _ Ef) as [-> ->].
  destruct (load_package_info toml_path w) as [[w2 ev2] o2] eqn:El.
  destruct (load_package_info_reads _ _ _ _ _ El) as [-> ->].
  unfold outcome_of in Hfind, Hload. simpl in Hfind, Hload. subst o1 o2.
  assert (Hkey : exists key, (key = "package" \/ key = "build") /\
                   stages package_name w = (w, [], inl (PyStr.quote key))).
  { rewrite stages_split. unfold bind at 1, load_recipe, bind, getitem, ret, raise.
    rewrite Ef, El.
    destruct (pi_package info); [exists "build" | exists "package"];
      (split; [auto |]); [now rewrite Hbuild | reflexivity]. }
  destruct Hkey as (key & Hk & Hs). exists key. split; [exact Hk |].
  rewrite run_eq, Hs. reflexivity.
Qed.

Lemma missing_build_table_fails_witness :
  outcome_of (find_package_toml "foo" Sim.w0) = inr "/home/user/sources/foo/foo.toml" /\
  outcome_of (load_package_info "/home/user/sources/foo/foo.toml" Sim.w0)
    = inr Sim.foo_info /\
  pi_build Sim.foo_info = None /\
  exists key,
    (key = "package" \/ key = "build") /\
    run "foo" Sim.w0 =
      (Sim.w0, [Finished false ("Failed: " ++ PyStr.quote key) (PyStr.quote key)],
       inr tt).
Proof.
  split; [reflexivity |]. split; [reflexivity |]. split; [reflexivity |].
  apply (missing_build_table_fails "foo" Sim.w0 "/home/user/sources/foo/foo.toml"
           Sim.foo_info); reflexivity.
Defined.

(** ** Where the artifact goes *)

Lemma emits_only_bind_ret {W A B} P (a : A) (f : A -> M W B) :
  emits_only P (f a) -> emits_only P (bind (ret a) f).
Proof.
  intros Hf w. specialize (Hf w). unfold bind, ret, events_of in *.
  destruct (f a w) as [[w2 ev2] o]. exact Hf.
Qed.

Lemma emits_only_bind_raise {W A B} P e (f : A -> M W B) :
  emits_only P (bind (raise e) f).
Proof. intros w. constructor. Qed.

Section Artifact.

Context {W : Type} `{OS W}.

Lemma fetch_source_downloads_to url dest_dir :
  emits_only (downloads_to url (os_path.join dest_dir (os_path.basename url)))
    (fetch_source url dest_dir).
Proof.
  intros w.
  unfold fetch_source, try_except, bind, asking, urlretrieve,
    status_label_setText, emit, ret, raise, events_of.
  destruct (os_path_exists _ w); simpl; [constructor |].
  destruct (urllib_urlretrieve _ _ w) as [w1 [e | []]]; simpl;
    repeat constructor.
Qed.

Lemma fetch_and_build_downloads toml_path package b :
  emits_only (recipe_download toml_path package)
    (fetch_and_build toml_path package b).
Proof.
  unfold fetch_and_build.
  apply emits_only_bind; [apply emits_only_emit; exact I | intros _].
  apply emits_only_bind; [apply emits_only_calling | intros _].
  apply emits_only_bind; [apply emits_only_emit; exact I | intros _].
  destruct (src package) as [[| url others] |] eqn:Hsrc; simpl.
  - apply emits_only_bind_ret. apply emits_only_bind_raise.
  - apply emits_only_bind_ret. apply emits_only_bind_ret.
    apply emits_only_bind.
    + eapply emits_only_weaken; [| apply fetch_source_downloads_to].
      intros [] He; simpl in *; try exact I.
      destruct He as [-> ->]. split; [eauto | reflexivity].
    + intros tarball.
      unfold configure_stage, compile_stage, install_stage. quiet.
  - apply emits_only_bind_raise.
Qed.

Lemma run_downloads package_name w :
  downloads (events_of (run package_name w)) =
  downloads (events_of (stages package_name w)).
Proof.
  rewrite run_eq. unfold events_of.
  destruct (stages package_name w) as [[w1 ev1] [e | built]]; simpl.
  - rewrite downloads_app. simpl. now rewrite app_nil_r.
  - destruct (cleanup (fst built) (snd built) w1) as [[w2 ev2] o] eqn:Hc.
    apply cleanup_spec in Hc.
    destruct o as [e | []]; simpl; [destruct Hc as [-> | ->] | subst ev2];
      rewrite downloads_app; simpl; now rewrite app_nil_r.
Qed.

End Artifact.

(** C6, as stated, fails on the program: the job of the end-to-end
    scenario downloads the archive next to the recipe, inside the source
    tree, and not to the build directory. *)
Lemma artifact_downloaded_outside_build_root :
  downloads (events_of (run "pkg" Sim.w0)) =
    [("https://example.org/pkg-1.0.tar.gz", "/home/user/sources/pkg/pkg-1.0.tar.gz")] /\
  "/home/user/sources/pkg/pkg-1.0.tar.gz" <> os_path.join BUILD_DIR "pkg-1.0.tar.gz" /\
  os_path.dirname "/home/user/sources/pkg/pkg-1.0.tar.gz" <> BUILD_DIR /\
  PyStr.startswith "/home/user/sources/pkg/pkg-1.0.tar.gz" (SOURCES_BASE_DIR ++ "/")
    = true.
Proof.
  split; [vm_compute; reflexivity |].
  split; [vm_compute; discriminate |].
  split; [vm_compute; discriminate | vm_compute; reflexivity].
Qed.

(** ** Privileged commands *)

(** The commands the executor hands to the shell are the first ones of
    its list, as they are written there. *)
Lemma build_package_prefix {W} `{OS W} src_dir commands stage (w : W) :
  exists n,
    commands_of (execs (events_of (build_package src_dir commands stage w)))
    = firstn n commands.
Proof.
  destruct (build_package src_dir commands stage w) as [[w1 evs] o] eqn:Hb.
  apply build_package_spec in Hb. unfold events_of; simpl.
  assert (Hmap : forall cs l, ran src_dir cs l -> commands_of l = cs).
  { intros cs l [Hm _]. unfold commands_of.
    rewrite <- (map_map fst fst), Hm, map_map. simpl. apply map_id. }
  destruct o as [msg | []].
  - destruct Hb as (before & cmd & rest & l & r & -> & -> & Hran & _).
    exists (length (before ++ [cmd])).
    unfold commands_of. rewrite map_app. fold (commands_of l).
    rewrite (Hmap _ _ Hran). simpl.
    change (before ++ cmd :: rest)%list with (before ++ [cmd] ++ rest)%list.
    rewrite app_assoc, firstn_app, firstn_all, Nat.sub_diag. simpl.
    now rewrite app_nil_r.
  - exists (length commands). rewrite firstn_all. now apply Hmap.
Qed.

(** C7, as the program has it.  In the install stage every command
    handed to the shell is the declared one, with [pkexec ] put in front
    of it when its text contains [sudo] and unchanged otherwise; in the
    configure and compile stages every command is handed to the shell
    as declared, whether its text contains [sudo] or not. *)
Theorem pkexec_only_in_install_stage {W} `{OS W} src_dir b (w : W) :
  (exists n,
      commands_of (execs (events_of (configure_stage src_dir b w)))
      = firstn n (match configure b with Some c => c | None => [] end)) /\
  (exists n,
      commands_of (execs (events_of (compile_stage src_dir b w)))
      = firstn n (match compile b with Some c => c | None => [] end)) /\
  (exists n,
      commands_of (execs (events_of (install_stage src_dir b w)))
      = firstn n (map pkexec_if_sudo
                    (match install b with Some c => c | None => [] end))) /\
  (forall cmd, PyStr.contains "sudo" cmd = true ->
               pkexec_if_sudo cmd = "pkexec " ++ cmd) /\
  (forall cmd, PyStr.contains "sudo" cmd = false -> pkexec_if_sudo cmd = cmd).
Proof.
  assert (Hstage : forall label commands stage percent,
             exists n,
               commands_of (execs (events_of
                 ((emit (Message label);;
                   build_package src_dir commands stage;;
                   emit (Progress percent)) w)))
               = firstn n commands).
  { intros label commands stage percent.
    destruct (build_package_prefix src_dir commands stage w) as [n Hn].
    exists n. rewrite <- Hn. unfold bind, emit, events_of. simpl.
    destruct (build_package src_dir commands stage w) as [[w1 evs] [e | []]];
      simpl; [reflexivity |].
    now rewrite execs_app, app_nil_r. }
  repeat split.
  - unfold configure_stage. destruct (configure b); [apply Hstage |].
    exists 0%nat. reflexivity.
  - unfold compile_stage. destruct (compile b); [apply Hstage |].
    exists 0%nat. reflexivity.
  - unfold install_stage. destruct (install b); [apply Hstage |].
    exists 0%nat. reflexivity.
  - intros cmd Hs. unfold pkexec_if_sudo. now rewrite Hs.
  - intros cmd Hs. unfold pkexec_if_sudo. now rewrite Hs.
Qed.

(** C7, as stated, fails on the program: the configure command of the
    recipe [tool] contains [sudo] and is handed to the shell as it is. *)
Lemma sudo_in_configure_runs_unchanged :
  configure (match pi_build Sim.tool_info with
             | Some b => b
             | None => {| configure := None; compile := None; install := None |}
             end) = Some ["sudo ./configure"] /\
  PyStr.contains "sudo" "sudo ./configure" = true /\
  commands_of (execs (events_of (run "tool" Sim.w0)))
  = ["sudo ./configure"; "make"; "pkexec sudo make install"].
Proof. repeat split; vm_compute; reflexivity. Qed.

(** ** Loading a recipe *)

(** C8, as the program has it.  Loading raises when the file cannot be
    read or its text is not a TOML document; otherwise it returns what
    the parser made of the text, as it is: no key is required. *)
Theorem load_package_info_does_not_validate {W} `{OS W} toml_path (w : W) :
  (forall e, os_read toml_path w = inl e ->
             load_package_info toml_path w
             = (w, [], inl ("Oops, couldn’t load the TOML file: " ++ e))) /\
  (forall text e, os_read toml_path w = inr text -> toml_loads text = inl e ->
             load_package_info toml_path w
             = (w, [], inl ("Oops, couldn’t load the TOML file: " ++ e))) /\
  (forall text info, os_read toml_path w = inr text -> toml_loads text = inr info ->
             load_package_info toml_path w = (w, [], inr info)).
Proof.
  rewrite load_package_info_eq.
  split; [| split].
  - intros e Hr. now rewrite Hr.
  - intros text e Hr Hp. now rewrite Hr, Hp.
  - intros text info Hr Hp. now rewrite Hr, Hp.
Qed.

(** C8, as stated, fails on the program: a recipe whose [package] table
    has neither [name] nor [src] is loaded without an error. *)
Lemma recipe_without_name_is_loaded :
  exists info package,
    load_package_info "/home/user/sources/anon/anon.toml" Sim.w0
    = (Sim.w0, [], inr info) /\
    pi_package info = Some package /\
    name package = None /\ src package = None.
Proof. eexists. eexists. repeat split. Qed.

(** ** The package list *)

Lemma contains_empty s : PyStr.contains "" s = true.
Proof. destruct s; reflexivity. Qed.

(** C9, as the program has it.  For every text of the search bar, the
    list shows exactly the stems (the file names without their last
    extension) of the [.toml] files of the source tree whose stem, in
    lower case, contains the text in lower case; the order is that of
    the traversal, and the empty text shows every stem. *)
Theorem listing_filters_file_stems {W} `{OS W} search_text (w : W) :
  search_packages search_text w
  = filter (fun stem => PyStr.contains (PyStr.lower search_text) (PyStr.lower stem))
      (get_all_package_names w) /\
  (forall stem,
      In stem (get_all_package_names w) <->
      exists root files file,
        In (root, files) (os_walk SOURCES_BASE_DIR w) /\ In file files /\
        PyStr.endswith file ".toml" = true /\
        stem = fst (os_path.splitext file)) /\
  (forall stem,
      In stem (search_packages search_text w) <->
      In stem (get_all_package_names w) /\
      PyStr.contains (PyStr.lower search_text) (PyStr.lower stem) = true) /\
  search_packages "" w = get_all_package_names w.
Proof.
  split; [reflexivity |]. split; [| split].
  - intros stem. unfold get_all_package_names. rewrite in_flat_map. split.
    + intros ([root files] & Hw & Hin). simpl in Hin.
      apply in_map_iff in Hin as (file & <- & Hf).
      apply filter_In in Hf as [Hf Ht]. exists root, files, file. auto.
    + intros (root & files & file & Hw & Hf & Ht & ->).
      exists (root, files). split; [exact Hw |]. simpl.
      apply in_map_iff. exists file. split; [reflexivity |].
      apply filter_In. auto.
  - intros stem. unfold search_packages, load_all_packages.
    rewrite filter_In. reflexivity.
  - unfold search_packages, load_all_packages. simpl.
    apply forallb_filter_id. apply forallb_forall. intros x _. apply contains_empty.
Qed.

(** C9, as stated, fails on the program: the recipe stored as
    [foo.toml] declares the name [bar]; the listing the specification
    words shows it for the query [bar], the program shows nothing.  Nor
    does the extension of the file name count: for the query [.toml]
    the program shows nothing. *)
Lemma declared_name_is_not_searched :
  declared_name "/home/user/sources/foo/foo.toml" Sim.w0 = Some "bar" /\
  spec_listNames "bar" Sim.w0 = ["foo"] /\
  search_packages "bar" Sim.w0 = [] /\
  spec_listNames ".toml" Sim.w0 = ["pkg"; "tool"; "foo"; "anon"; "broken"] /\
  search_packages ".toml" Sim.w0 = [].
Proof. repeat split; vm_compute; reflexivity. Qed.

(** * Further properties *)

(** ** Texts *)

Lemma append_assoc (a b c : string) : (a ++ b) ++ c = a ++ (b ++ c).
Proof. induction a as [| x a IH]; simpl; [reflexivity | now rewrite IH]. Qed.

Lemma append_empty_r (a : string) : a ++ "" = a.
Proof. induction a as [| x a IH]; simpl; [reflexivity | now rewrite IH]. Qed.

Lemma rsplit_append c s h t : PyStr.rsplit c s = Some (h, t) -> s = h ++ t.
Proof.
  revert h t. induction s as [| a s IH]; simpl; intros h t; [discriminate |].
  destruct (PyStr.rsplit c s) as [[h' t'] |].
  - intros [= <- <-]. simpl. now rewrite (IH h' t' eq_refl).
  - destruct (Ascii.eqb a c); [| discriminate]. now intros [= <- <-].
Qed.

(** [root + ext == path] for [os.path.splitext]. *)
Lemma splitext_append p :
  fst (os_path.splitext p) ++ snd (os_path.splitext p) = p.
Proof.
  unfold os_path.splitext.
  destruct (PyStr.rsplit os_path.sep p) as [[h [| a tl]] |] eqn:Hs.
  - destruct (PyStr.rsplit os_path.extsep p) as [[stem ext] |] eqn:Hd;
      [| simpl; apply append_empty_r ].
    destruct (PyStr.all_char os_path.extsep stem); simpl.
    + apply append_empty_r.
    + symmetry. now apply rsplit_append with (c := os_path.extsep).
  - apply rsplit_append in Hs.
    destruct (PyStr.rsplit os_path.extsep tl) as [[stem ext] |] eqn:Hd.
    + destruct (PyStr.all_char os_path.extsep stem); simpl.
      * apply append_empty_r.
      * apply rsplit_append in Hd. rewrite Hs, Hd.
        rewrite !append_assoc. reflexivity.
    + simpl. apply append_empty_r.
  - destruct (PyStr.rsplit os_path.extsep p) as [[stem ext] |] eqn:Hd;
      [| simpl; apply append_empty_r ].
    destruct (PyStr.all_char os_path.extsep stem); simpl.
    + apply append_empty_r.
    + symmetry. now apply rsplit_append with (c := os_path.extsep).
Qed.

Lemma lower_append a b : PyStr.lower (a ++ b) = PyStr.lower a ++ PyStr.lower b.
Proof. induction a as [| x a IH]; simpl; [reflexivity | now rewrite IH]. Qed.

Lemma prefix_append a b : String.prefix a (a ++ b) = true.
Proof.
  induction a as [| x a IH]; simpl; [now destruct b |].
  destruct (ascii_dec x x); [exact IH | contradiction].
Qed.

Lemma contains_prefix needle hay :
  String.prefix needle hay = true -> PyStr.contains needle hay = true.
Proof. intros Hp. destruct hay; cbn [PyStr.contains]; now rewrite Hp. Qed.

Lemma contains_append_r needle a b :
  PyStr.contains needle b = true -> PyStr.contains needle (a ++ b) = true.
Proof.
  intros Hb. induction a as [| x a IH]; [exact Hb |].
  cbn [append PyStr.contains]. rewrite IH. apply orb_true_r.
Qed.

(** ** Looking a recipe up *)

Section Lookup.

Context {W : Type} `{OS W}.

Lemma find_in_files_some wanted root listing p :
  find_in_files wanted root listing = Some p ->
  exists pre file post,
    listing = (pre ++ file :: post)%list /\
    Forall (fun f => recipe_match wanted f = false) pre /\
    recipe_match wanted file = true /\
    p = os_path.join root file.
Proof.
  induction listing as [| file rest IH]; simpl; [discriminate |].
  fold (recipe_match wanted file).
  destruct (recipe_match wanted file) eqn:Hm.
  - intros [= <-]. exists [], file, rest. auto.
  - intros Hr. destruct (IH Hr) as (pre & f & post & -> & Hpre & Hf & ->).
    exists (file :: pre), f, post. auto.
Qed.

Lemma find_in_files_none wanted root listing :
  find_in_files wanted root listing = None ->
  Forall (fun f => recipe_match wanted f = false) listing.
Proof.
  induction listing as [| file rest IH]; simpl; [constructor |].
  fold (recipe_match wanted file).
  destruct (recipe_match wanted file) eqn:Hm; [discriminate |]. auto.
Qed.

Lemma find_in_walk_some wanted walk p :
  find_in_walk wanted walk = Some p ->
  exists before root listing after,
    walk = (before ++ (root, listing) :: after)%list /\
    Forall (fun rf => Forall (fun f => recipe_match wanted f = false) (snd rf))
      before /\
    find_in_files wanted root listing = Some p.
Proof.
  induction walk as [| [root listing] rest IH]; simpl; [discriminate |].
  destruct (find_in_files wanted root listing) as [q |] eqn:Hf.
  - intros [= <-]. exists [], root, listing, rest. auto.
  - intros Hr. destruct (IH Hr) as (before & r & l & after & -> & Hb & Hl).
    exists ((root, listing) :: before), r, l, after.
    repeat split; auto. constructor; [| exact Hb].
    simpl. now apply find_in_files_none with (root := root).
Qed.

Lemma find_in_walk_none wanted walk :
  find_in_walk wanted walk = None ->
  Forall (fun rf => Forall (fun f => recipe_match wanted f = false) (snd rf)) walk.
Proof.
  induction walk as [| [root listing] rest IH]; simpl; [constructor |].
  destruct (find_in_files wanted root listing) as [q |] eqn:Hf; [discriminate |].
  intros Hr. constructor; [| auto].
  simpl. now apply find_in_files_none with (root := root).
Qed.

Lemma find_package_toml_eq wanted w :
  find_package_toml wanted w =
  (w, [],
   match find_in_walk wanted (os_walk SOURCES_BASE_DIR w) with
   | Some p => inr p
   | None =>
       inl ("Search for the package failed: Couldn’t find the package '"
            ++ wanted ++ "'")
   end).
Proof.
  unfold find_package_toml, try_except, bind, asking, ret, raise.
  destruct (find_in_walk wanted (os_walk SOURCES_BASE_DIR w)); reflexivity.
Qed.

End Lookup.

(** A recipe the look-up returns is a file of the traversal of the
    source tree, joined to the directory the traversal lists it in. *)
Lemma find_package_toml_in_walk {W} `{OS W} wanted (w : W) toml_path :
  outcome_of (find_package_toml wanted w) = inr toml_path ->
  exists root listing file,
    In (root, listing) (os_walk SOURCES_BASE_DIR w) /\
    In file listing /\
    toml_path = os_path.join root file.
Proof.
  rewrite find_package_toml_eq. unfold outcome_of; simpl.
  destruct (find_in_walk wanted (os_walk SOURCES_BASE_DIR w)) as [p |] eqn:Hf;
    [| discriminate].
  intros [= ->].
  apply find_in_walk_some in Hf as (before & root & listing & after & Hw & _ & Hl).
  apply find_in_files_some in Hl as (pre & file & post & Hl & _ & _ & Hp).
  exists root, listing, file. rewrite Hw, Hl. repeat split.
  - apply in_or_app. right. now left.
  - apply in_or_app. right. now left.
  - exact Hp.
Qed.

(** C6, as the program has it.  For every job, whatever is downloaded
    is the first source of the recipe, and it is written to the
    directory of the recipe file, under the base name of the URL; the
    recipe file is the one the look-up returned, a file of the
    traversal of the source tree joined to the directory that lists
    it. *)
Theorem download_lands_beside_recipe {W} `{OS W} package_name (w : W) u f :
  In (u, f) (downloads (events_of (run package_name w))) ->
  exists toml_path info package others,
    outcome_of (find_package_toml package_name w) = inr toml_path /\
    (exists root listing file,
        In (root, listing) (os_walk SOURCES_BASE_DIR w) /\
        In file listing /\
        toml_path = os_path.join root file) /\
    outcome_of (load_package_info toml_path w) = inr info /\
    pi_package info = Some package /\
    src package = Some (u :: others) /\
    f = os_path.join (os_path.dirname toml_path) (os_path.basename u).
Proof.
  rewrite run_downloads.
  destruct (stages package_name w) as [[w1 evs] o] eqn:Hs.
  rewrite stages_split in Hs. unfold events_of; simpl.
  apply bind_inv in Hs
    as [(e & Hl & ->) | (w2 & ev1 & [[toml_path package] b] & ev2 & Hl & Hf & ->)].
  - apply load_recipe_spec in Hl as (_ & -> & _). intros [].
  - apply load_recipe_spec in Hl as (-> & -> & info & Hfind & Hload & Hp & Hb).
    simpl in Hf. simpl. intros Hin.
    pose proof (fetch_and_build_downloads toml_path package b w) as Hd.
    rewrite Hf in Hd. unfold events_of in Hd; simpl in Hd.
    apply in_flat_map in Hin as (e & He & Hin).
    rewrite Forall_forall in Hd. specialize (Hd e He).
    destruct e; simpl in Hin; try contradiction.
    destruct Hin as [[= -> ->] | []].
    destruct Hd as [[others Hsrc] ->].
    assert (Hout : outcome_of (find_package_toml package_name w) = inr toml_path)
      by now rewrite Hfind.
    exists toml_path, info, package, others.
    split; [exact Hout |].
    split; [exact (find_package_toml_in_walk _ _ _ Hout) |].
    rewrite Hload. auto.
Qed.

Lemma download_lands_beside_recipe_witness :
  In ("https://example.org/pkg-1.0.tar.gz", "/home/user/sources/pkg/pkg-1.0.tar.gz")
     (downloads (events_of (run "pkg" Sim.w0))) /\
  exists toml_path info package others,
    outcome_of (find_package_toml "pkg" Sim.w0) = inr toml_path /\
    (exists root listing file,
        In (root, listing) (os_walk SOURCES_BASE_DIR Sim.w0) /\
        In file listing /\
        toml_path = os_path.join root file) /\
    outcome_of (load_package_info toml_path Sim.w0) = inr info /\
    pi_package info = Some package /\
    src package = Some ("https://example.org/pkg-1.0.tar.gz" :: others) /\
    "/home/user/sources/pkg/pkg-1.0.tar.gz" =
      os_path.join (os_path.dirname toml_path)
        (os_path.basename "https://example.org/pkg-1.0.tar.gz").
Proof.
  assert (Hin : In ("https://example.org/pkg-1.0.tar.gz",
                    "/home/user/sources/pkg/pkg-1.0.tar.gz")
                   (downloads (events_of (run "pkg" Sim.w0)))).
  { vm_compute. left. reflexivity. }
  split; [exact Hin |].
  exact (download_lands_beside_recipe "pkg" Sim.w0 _ _ Hin).
Defined.

(** The look-up returns the first file of the traversal whose name ends
    in [.toml] and contains the wanted name, in any letter case, joined
    to its directory; it fails, with a fixed text that quotes the name,
    exactly when the traversal has no such file. *)
Theorem find_package_toml_first_match {W} `{OS W} wanted (w : W) :
  match outcome_of (find_package_toml wanted w) with
  | inr p =>
      exists before root listing after pre file post,
        os_walk SOURCES_BASE_DIR w = (before ++ (root, listing) :: after)%list /\
        listing = (pre ++ file :: post)%list /\
        Forall (fun rf => Forall (fun f => recipe_match wanted f = false) (snd rf))
          before /\
        Forall (fun f => recipe_match wanted f = false) pre /\
        recipe_match wanted file = true /\
        p = os_path.join root file
  | inl e =>
      e = "Search for the package failed: Couldn’t find the package '"
          ++ wanted ++ "'" /\
      Forall (fun rf => Forall (fun f => recipe_match wanted f = false) (snd rf))
        (os_walk SOURCES_BASE_DIR w)
  end.
Proof.
  rewrite find_package_toml_eq. unfold outcome_of; simpl.
  destruct (find_in_walk wanted (os_walk SOURCES_BASE_DIR w)) as [p |] eqn:Hf.
  - apply find_in_walk_some in Hf as (before & root & listing & after & Hw & Hb & Hl).
    apply find_in_files_some in Hl as (pre & file & post & Hl & Hpre & Hm & Hp).
    exists before, root, listing, after, pre, file, post. auto 10.
  - split; [reflexivity |]. now apply find_in_walk_none.
Qed.

(** Every name in ASCII that the package list shows can be looked up:
    the look-up of a listed name returns a recipe path, on the same
    machine. *)
Theorem listed_names_are_found {W} `{OS W} stem (w : W) :
  is_ascii stem = true ->
  In stem (get_all_package_names w) ->
  exists p, find_package_toml stem w = (w, [], inr p).
Proof.
  intros _ Hin. unfold get_all_package_names in Hin.
  apply in_flat_map in Hin as ([root listing] & Hw & Hin). simpl in Hin.
  apply in_map_iff in Hin as (file & <- & Hf).
  apply filter_In in Hf as [Hf Ht].
  assert (Hm : recipe_match (fst (os_path.splitext file)) file = true).
  { unfold recipe_match. rewrite Ht. simpl.
    rewrite <- (splitext_append file) at 2. rewrite lower_append.
    apply contains_prefix, prefix_append. }
  rewrite find_package_toml_eq.
  destruct (find_in_walk _ (os_walk SOURCES_BASE_DIR w)) as [p |] eqn:Hfind;
    [eauto |].
  apply find_in_walk_none in Hfind. rewrite Forall_forall in Hfind.
  specialize (Hfind _ Hw). simpl in Hfind. rewrite Forall_forall in Hfind.
  rewrite (Hfind _ Hf) in Hm. discriminate.
Qed.

Lemma listed_names_are_found_witness :
  is_ascii "tool" = true /\
  In "tool" (get_all_package_names Sim.w0) /\
  exists p, find_package_toml "tool" Sim.w0 = (Sim.w0, [], inr p).
Proof.
  assert (Hin : In "tool" (get_all_package_names Sim.w0)).
  { vm_compute. right. left. reflexivity. }
  split; [reflexivity |]. split; [exact Hin |].
  exact (listed_names_are_found "tool" Sim.w0 eq_refl Hin).
Defined.

(** ** Fetching and extracting *)

(** The fetcher fails exactly when the file is absent and the download
    raises; the error is the text of the download's exception behind a
    fixed prefix, the download is the only event, and no status text is
    written. *)
Theorem fetch_source_failure {W} `{OS W} url dest_dir (w : W) e :
  let filename := os_path.join dest_dir (os_path.basename url) in
  outcome_of (fetch_source url dest_dir w) = inl e <->
  os_path_exists filename w = false /\
  exists w1 cause,
    urllib_urlretrieve url filename w = (w1, inl cause) /\
    e = "Uh-oh, couldn’t download the source: " ++ cause /\
    fetch_source url dest_dir w = (w1, [Download url filename], inl e).
Proof.
  intros filename. subst filename.
  unfold fetch_source, try_except, bind, asking, urlretrieve,
    status_label_setText, emit, ret, raise, outcome_of.
  destruct (os_path_exists _ w) eqn:Hex; simpl.
  - split; [discriminate | intros [Hf _]; discriminate].
  - destruct (urllib_urlretrieve _ _ w) as [w1 [cause | []]] eqn:Hu; simpl.
    + split.
      * intros [= <-]. split; [reflexivity |]. exists w1, cause. auto.
      * intros (_ & w2 & c & [= <- <-] & -> & _). reflexivity.
    + split; [discriminate |]. intros (_ & w2 & c & Hc & _). discriminate.
Qed.

Lemma first_directory {A} (isdir : A -> bool) (g : string -> A) names :
  match filter isdir (map g names) with
  | [] => Forall (fun d => isdir (g d) = false) names
  | p :: _ =>
      exists pre d post,
        names = (pre ++ d :: post)%list /\
        Forall (fun d => isdir (g d) = false) pre /\
        isdir (g d) = true /\ p = g d
  end.
Proof.
  induction names as [| d rest IH]; simpl; [constructor |].
  destruct (isdir (g d)) eqn:Hd.
  - exists [], d, rest. auto.
  - destruct (filter isdir (map g rest)) as [| p t].
    + constructor; assumption.
    + destruct IH as (pre & d' & post & -> & Hpre & Hd' & ->).
      exists (d :: pre), d', post. auto.
Qed.

(** The extractor emits nothing.  When it returns, the archive was
    extracted, the destination was listed on the machine the extraction
    left, and the result is the first entry of the listing that is a
    directory, joined to the destination, or the destination itself
    when no entry is a directory.  When it raises, the text has a fixed
    prefix. *)
Theorem extract_tarball_first_directory {W} `{OS W} tarball dest_dir (w : W) :
  let r := extract_tarball tarball dest_dir w in
  events_of r = [] /\
  match outcome_of r with
  | inr p =>
      exists names,
        tarfile_extractall tarball dest_dir w = (world_of r, inr tt) /\
        os_listdir dest_dir (world_of r) = inr names /\
        ((p = dest_dir /\
          Forall (fun d => os_path_isdir (os_path.join dest_dir d) (world_of r) = false)
            names) \/
         exists pre d post,
           names = (pre ++ d :: post)%list /\
           Forall (fun d => os_path_isdir (os_path.join dest_dir d) (world_of r) = false)
             pre /\
           os_path_isdir (os_path.join dest_dir d) (world_of r) = true /\
           p = os_path.join dest_dir d)
  | inl e => exists cause, e = "Yikes, couldn’t extract the tarball: " ++ cause
  end.
Proof.
  intros r. subst r. split; [apply extract_tarball_silent |].
  unfold extract_tarball, try_except, bind, calling, reading, asking, ret,
    raise, outcome_of, world_of.
  destruct (tarfile_extractall tarball dest_dir w) as [w1 [e | []]]; simpl;
    [eauto |].
  destruct (os_listdir dest_dir w1) as [e | names] eqn:Hl; simpl; [eauto |].
  exists names. split; [reflexivity |]. split; [exact Hl |].
  pose proof (first_directory (fun p => os_path_isdir p w1)
                (os_path.join dest_dir) names) as Hf.
  destruct (filter _ (map (os_path.join dest_dir) names)) as [| p t].
  - left. auto.
  - right. exact Hf.
Qed.

(** ** The job as a whole *)

(** A job never raises: whatever happens, it ends with one completion
    event, and that is its last event.  On success the message quotes
    the package name and the details are empty; on failure the message
    is [Failed: ] followed by the details. *)
Theorem run_always_completes {W} `{OS W} package_name (w : W) :
  exists ev ok message det,
    run package_name w
    = (world_of (run package_name w), (ev ++ [Finished ok message det])%list, inr tt) /\
    completions ev = [] /\
    if ok then message = "'" ++ package_name ++ "' installed" /\ det = ""
    else message = "Failed: " ++ det.
Proof.
  rewrite run_eq.
  pose proof (stages_emits package_name w) as Hq.
  destruct (stages package_name w) as [[w1 ev1] [e | built]];
    unfold events_of in Hq; simpl in Hq;
    assert (Hc : completions ev1 = [])
      by (eapply flat_map_nil_Forall; [| exact Hq]; intros [] He; simpl in He; easy).
  - exists ev1, false, ("Failed: " ++ e), e. auto.
  - destruct (cleanup (fst built) (snd built) w1) as [[w2 ev2] o] eqn:Hcl.
    apply cleanup_spec in Hcl. destruct o as [e | []].
    + exists (ev1 ++ ev2)%list, false, ("Failed: " ++ e), e.
      unfold world_of; simpl. rewrite app_assoc, completions_app, Hc.
      destruct Hcl as [-> | ->]; auto.
    + subst ev2.
      exists (ev1 ++ [Rmtree (fst built); Remove (snd built); Progress 100])%list,
        true, ("'" ++ package_name ++ "' installed"), "".
      unfold world_of; simpl. rewrite <- app_assoc, completions_app, Hc. auto.
Qed.

Lemma stages_loaded {W} `{OS W} package_name (w : W) toml_path info package b :
  outcome_of (find_package_toml package_name w) = inr toml_path ->
  outcome_of (load_package_info toml_path w) = inr info ->
  pi_package info = Some package ->
  pi_build info = Some b ->
  stages package_name w = fetch_and_build toml_path package b w.
Proof.
  intros Hfind Hload Hp Hb.
  destruct (find_package_toml package_name w) as [[w1 ev1] o1] eqn:Ef.
  destruct (find_package_toml_reads _ _ _ _ _ Ef) as [-> ->].
  destruct (load_package_info toml_path w) as [[w2 ev2] o2] eqn:El.
  destruct (load_package_info_reads _ _ _ _ _ El) as [-> ->].
  unfold outcome_of in Hfind, Hload. simpl in Hfind, Hload. subst o1 o2.
  rewrite stages_split. unfold bind at 1, load_recipe, bind, getitem, ret.
  rewrite Ef, El, Hp, Hb. simpl.
  now destruct (fetch_and_build toml_path package b w) as [[w3 ev3] o].
Qed.

(** A recipe without a source: when the [package] table has no [src]
    key, or an empty list, the job fails before anything is fetched,
    with [KeyError] or [IndexError] as the details, after the first
    message and, unless the build directory cannot be made, after the
    first progress value. *)
Theorem job_without_source_fails {W} `{OS W} package_name (w : W)
  toml_path info package b :
  outcome_of (find_package_toml package_name w) = inr toml_path ->
  outcome_of (load_package_info toml_path w) = inr info ->
  pi_package info = Some package ->
  pi_build info = Some b ->
  src package = None \/ src package = Some [] ->
  events_of (run package_name w) =
  match os_makedirs_exist_ok BUILD_DIR w with
  | (_, inl e) =>
      [Message ("Loaded: " ++ os_path.basename toml_path);
       Finished false ("Failed: " ++ e) e]
  | (_, inr _) =>
      let e := match src package with
               | None => "'src'"
               | Some _ => "list index out of range"
               end in
      [Message ("Loaded: " ++ os_path.basename toml_path); Progress 10;
       Finished false ("Failed: " ++ e) e]
  end.
Proof.
  intros Hfind Hload Hp Hb Hsrc.
  rewrite run_eq, (stages_loaded _ _ _ _ _ _ Hfind Hload Hp Hb).
  unfold fetch_and_build, bind, emit, calling, getitem, first_item, raise, ret.
  destruct (os_makedirs_exist_ok BUILD_DIR w) as [w1 [e | []]]; simpl;
    [reflexivity |].
  destruct Hsrc as [-> | ->]; reflexivity.
Qed.

Lemma job_without_source_fails_witness :
  outcome_of (find_package_toml "anon" Sim.w0)
    = inr "/home/user/sources/anon/anon.toml" /\
  outcome_of (load_package_info "/home/user/sources/anon/anon.toml" Sim.w0)
    = inr Sim.anon_info /\
  pi_package Sim.anon_info = Some {| name := None; src := None |} /\
  pi_build Sim.anon_info
    = Some {| configure := None; compile := None; install := None |} /\
  events_of (run "anon" Sim.w0) =
  [Message "Loaded: anon.toml"; Progress 10; Finished false "Failed: 'src'" "'src'"].
Proof.
  repeat (split; [reflexivity |]).
  exact (job_without_source_fails "anon" Sim.w0
           "/home/user/sources/anon/anon.toml" Sim.anon_info
           {| name := None; src := None |}
           {| configure := None; compile := None; install := None |}
           eq_refl eq_refl eq_refl eq_refl (or_introl eq_refl)).
Defined.

(** ** The order of the stages *)

Lemma ran_commands_of src_dir commands l :
  ran src_dir commands l -> commands_of l = commands.
Proof.
  intros [Hm _]. unfold commands_of.
  rewrite <- (map_map fst fst), Hm, map_map. simpl. apply map_id.
Qed.

Lemma commands_of_app a b :
  commands_of (a ++ b) = (commands_of a ++ commands_of b)%list.
Proof. apply map_app. Qed.

Section Order.

Context {W : Type} `{OS W}.

Lemma hands_over_quiet {A} (m : M W A) : emits_only no_exec m -> hands_over [] m.
Proof.
  intros Hm w. rewrite (no_exec_execs _ (Hm w)).
  destruct (outcome_of (m w)); [exists [] |]; reflexivity.
Qed.

Lemma hands_over_bind {A B} l1 l2 (m : M W A) (f : A -> M W B) :
  hands_over l1 m -> (forall a, hands_over l2 (f a)) ->
  hands_over (l1 ++ l2) (bind m f).
Proof.
  intros Hm Hf w. specialize (Hm w). unfold bind, outcome_of, events_of in *.
  destruct (m w) as [[w1 ev1] [e | a]]; cbn [fst snd] in *.
  - destruct Hm as [t ->]. exists (t ++ l2)%list. now rewrite app_assoc.
  - specialize (Hf a w1). unfold outcome_of, events_of in Hf.
    destruct (f a w1) as [[w2 ev2] [e | b]]; cbn [fst snd] in *;
      rewrite execs_app, commands_of_app, Hm.
    + destruct Hf as [t ->]. exists t. now rewrite app_assoc.
    + now rewrite Hf.
Qed.

Lemma hands_over_eq {A} l l' (m : M W A) : hands_over l m -> l = l' -> hands_over l' m.
Proof. now intros Hm <-. Qed.

Lemma build_package_hands_over src_dir commands stage :
  hands_over commands (build_package src_dir commands stage).
Proof.
  intros w. unfold outcome_of, events_of.
  destruct (build_package src_dir commands stage w) as [[w1 evs] o] eqn:Hb.
  apply build_package_spec in Hb. simpl. destruct o as [msg | []].
  - destruct Hb as (before & cmd & rest & l & r & -> & -> & Hran & _).
    exists rest. unfold commands_of. rewrite map_app. fold (commands_of l).
    rewrite (ran_commands_of _ _ _ Hran). simpl. now rewrite <- app_assoc.
  - now apply ran_commands_of with (src_dir := src_dir).
Qed.

Lemma stage_block_hands_over label src_dir commands stage percent :
  hands_over commands
    (emit (Message label);;
     build_package src_dir commands stage;;
     emit (Progress percent) : M W unit).
Proof.
  eapply hands_over_eq.
  - eapply hands_over_bind; [apply hands_over_quiet; quiet | intros _].
    eapply hands_over_bind; [apply build_package_hands_over | intros _].
    apply hands_over_quiet; quiet.
  - simpl. apply app_nil_r.
Qed.

Lemma configure_stage_hands_over src_dir b :
  hands_over (stage_commands (configure b)) (configure_stage src_dir b).
Proof.
  unfold configure_stage. destruct (configure b);
    [apply stage_block_hands_over | apply hands_over_quiet; quiet].
Qed.

Lemma compile_stage_hands_over src_dir b :
  hands_over (stage_commands (compile b)) (compile_stage src_dir b).
Proof.
  unfold compile_stage. destruct (compile b);
    [apply stage_block_hands_over | apply hands_over_quiet; quiet].
Qed.

Lemma install_stage_hands_over src_dir b :
  hands_over (map pkexec_if_sudo (stage_commands (install b)))
    (install_stage src_dir b).
Proof.
  unfold install_stage. destruct (install b);
    [apply stage_block_hands_over | apply hands_over_quiet; quiet].
Qed.

Lemma fetch_and_build_hands_over toml_path package b :
  hands_over (job_commands b) (fetch_and_build toml_path package b).
Proof.
  eapply hands_over_eq.
  - unfold fetch_and_build.
    do 9 (eapply hands_over_bind; [apply hands_over_quiet; solve [quiet] | intros ?]).
    eapply hands_over_bind; [apply configure_stage_hands_over | intros ?].
    eapply hands_over_bind; [apply compile_stage_hands_over | intros ?].
    eapply hands_over_bind; [apply install_stage_hands_over | intros ?].
    apply hands_over_quiet; quiet.
  - unfold job_commands. simpl. now rewrite app_nil_r.
Qed.

Lemma run_execs package_name w :
  execs (events_of (run package_name w)) =
  execs (events_of (stages package_name w)).
Proof.
  rewrite run_eq. unfold events_of.
  destruct (stages package_name w) as [[w1 ev1] [e | built]]; simpl.
  - rewrite execs_app. simpl. now rewrite app_nil_r.
  - destruct (cleanup (fst built) (snd built) w1) as [[w2 ev2] o] eqn:Hc.
    apply cleanup_spec in Hc.
    destruct o as [e | []]; simpl; [destruct Hc as [-> | ->] | subst ev2];
      rewrite execs_app; simpl; now rewrite app_nil_r.
Qed.

Lemma run_success_stages package_name w :
  completions (events_of (run package_name w)) = [true] ->
  exists built, outcome_of (stages package_name w) = inr built.
Proof.
  rewrite run_eq.
  pose proof (stages_emits package_name w) as Hq.
  destruct (stages package_name w) as [[w1 ev1] [e | built]];
    unfold events_of in *; simpl in *;
    assert (Hc : completions ev1 = [])
      by (eapply flat_map_nil_Forall; [| exact Hq]; intros [] He; simpl in He; easy).
  - rewrite completions_app, Hc. discriminate.
  - eauto.
Qed.

End Order.

(** The commands of a job go to the shell in the order configure,
    compile, install, whatever the order of the keys in the recipe, the
    install commands with [pkexec ] in front where they contain [sudo]:
    what a job hands to the shell is a prefix of that list, it is the
    whole list when the job succeeds, and then every command exited
    with status 0.  A job whose recipe could not be loaded hands
    nothing to the shell. *)
Theorem job_runs_stages_in_order {W} `{OS W} package_name (w : W) :
  match loaded_build package_name w with
  | Some b =>
      exists t,
        job_commands b
        = (commands_of (execs (events_of (run package_name w))) ++ t)%list /\
        (completions (events_of (run package_name w)) = [true] ->
         t = [] /\ Forall exec_ok (execs (events_of (run package_name w))))
  | None => execs (events_of (run package_name w)) = []
  end.
Proof.
  pose proof (run_success_stages package_name w) as Hsucc.
  pose proof (stages_fail_stop package_name w) as Hstop.
  rewrite run_execs.
  destruct (stages package_name w) as [[w1 evs] o] eqn:Hs.
  unfold outcome_of, events_of in *. simpl in *.
  rewrite stages_split in Hs.
  apply bind_inv in Hs
    as [(e & Hl & ->) | (w2 & ev1 & [[toml_path package] b] & ev2 & Hl & Hf & ->)].
  - apply load_recipe_spec in Hl as (_ & -> & _). simpl.
    destruct (loaded_build package_name w) as [b |]; [| reflexivity].
    exists (job_commands b). split; [reflexivity |].
    intros Hc. destruct (Hsucc Hc) as [built Hb]. discriminate.
  - apply load_recipe_spec in Hl as (-> & -> & info & Hfind & Hload & Hp & Hb).
    assert (Hlb : loaded_build package_name w = Some b).
    { unfold loaded_build. rewrite Hfind. cbn [outcome_of snd].
      rewrite Hload. cbn [outcome_of snd]. now rewrite Hp. }
    rewrite Hlb. simpl in Hf. simpl.
    pose proof (fetch_and_build_hands_over toml_path package b w) as Hh.
    rewrite Hf in Hh. unfold outcome_of, events_of in Hh. simpl in Hh.
    destruct o as [e | built].
    + destruct Hh as [t Ht]. exists t. split; [exact Ht |].
      intros Hc. destruct (Hsucc Hc) as [built Hb']. discriminate.
    + exists []. rewrite app_nil_r. split; [now rewrite Hh |].
      intros _. split; [reflexivity | exact Hstop].
Qed.

(** ** Where the commands run *)

Lemma exec_in_execs src_dir evs :
  Forall (exec_in src_dir) evs ->
  Forall (fun x : execution => snd (fst x) = src_dir) (execs evs).
Proof.
  induction 1 as [| e evs He _ IH]; simpl; [constructor |].
  apply Forall_app. split; [| exact IH].
  destruct e; simpl; constructor; [exact He | constructor].
Qed.

Section Directory.

Context {W : Type} `{OS W}.

Lemma run_command_exec_in src_dir stage cmd :
  emits_only (exec_in src_dir) (run_command src_dir stage cmd).
Proof.
  unfold run_command, status_label_setText.
  apply emits_only_bind; [apply emits_only_emit; exact I | intros _].
  apply emits_only_bind.
  - intros w. unfold run_shell, events_of.
    destruct (subprocess_run _ _ w). repeat constructor.
  - intros result. apply emits_only_bind; [| intros _; apply emits_only_emit; exact I].
    destruct (negb _); [| apply emits_only_ret].
    apply emits_only_bind; [apply emits_only_of_result | intros ?; apply emits_only_raise].
Qed.

Lemma build_package_exec_in src_dir commands stage :
  emits_only (exec_in src_dir) (build_package src_dir commands stage).
Proof.
  unfold build_package. apply emits_only_try_except; [| intros e; apply emits_only_raise].
  induction commands as [| cmd rest IH]; simpl; [apply emits_only_ret |].
  apply emits_only_bind; [apply run_command_exec_in | intros _; exact IH].
Qed.

Lemma stage_block_exec_in label src_dir commands stage percent :
  emits_only (exec_in src_dir)
    (emit (Message label);;
     build_package src_dir commands stage;;
     emit (Progress percent) : M W unit).
Proof.
  apply emits_only_bind; [apply emits_only_emit; exact I | intros _].
  apply emits_only_bind; [| intros _; apply emits_only_emit; exact I].
  apply build_package_exec_in.
Qed.

(** What the extractor returns, and on which machine. *)
Lemma extract_tarball_result tarball dest_dir w w1 ev p :
  extract_tarball tarball dest_dir w = (w1, ev, inr p) ->
  ev = [] /\
  exists names,
    os_listdir dest_dir w1 = inr names /\ first_directory_of dest_dir names w1 p.
Proof.
  unfold extract_tarball, try_except, bind, calling, reading, asking, ret, raise.
  destruct (tarfile_extractall tarball dest_dir w) as [w2 [e | []]]; simpl;
    [discriminate |].
  destruct (os_listdir dest_dir w2) as [e | names] eqn:Hl; simpl; [discriminate |].
  intros [= <- <- <-]. split; [reflexivity |].
  exists names. split; [exact Hl |].
  pose proof (first_directory (fun p => os_path_isdir p w2)
                (os_path.join dest_dir) names) as Hf.
  unfold first_directory_of.
  destruct (filter _ (map (os_path.join dest_dir) names)) as [| q t].
  - left. auto.
  - right. exact Hf.
Qed.

Lemma runs_bind_quiet {A B} (m : M W A) (f : A -> M W B) :
  emits_only no_exec m ->
  (forall a, runs_in_extracted_dir (f a)) ->
  runs_in_extracted_dir (bind m f).
Proof.
  intros Hm Hf w. specialize (Hm w). unfold bind, events_of in *.
  destruct (m w) as [[w1 ev1] [e | a]]; cbn [fst snd] in *.
  - left. now apply no_exec_execs.
  - specialize (Hf a w1). unfold events_of in Hf.
    destruct (f a w1) as [[w2 ev2] o]. cbn [fst snd] in *.
    now rewrite execs_app, (no_exec_execs _ Hm).
Qed.

Lemma runs_after_extract {B} tarball (f : string -> M W B) :
  (forall src_dir, emits_only (exec_in src_dir) (f src_dir)) ->
  runs_in_extracted_dir (bind (extract_tarball tarball BUILD_DIR) f).
Proof.
  intros Hf w. unfold bind, events_of.
  destruct (extract_tarball tarball BUILD_DIR w) as [[w1 ev1] [e | src_dir]] eqn:He;
    cbn [fst snd].
  - left. pose proof (extract_tarball_silent tarball BUILD_DIR w) as Hs.
    rewrite He in Hs. unfold events_of in Hs; simpl in Hs. now subst ev1.
  - destruct (extract_tarball_result _ _ _ _ _ _ He) as (-> & names & Hl & Hd).
    specialize (Hf src_dir w1). unfold events_of in Hf.
    destruct (f src_dir w1) as [[w2 ev2] o]. cbn [fst snd] in *.
    right. exists tarball, w, w1, names, src_dir.
    split; [exact He |]. split; [exact Hl |]. split; [exact Hd |].
    now apply exec_in_execs.
Qed.

Lemma stages_run_in_extracted_dir package_name :
  runs_in_extracted_dir (stages package_name).
Proof.
  unfold stages.
  do 11 (apply runs_bind_quiet; [solve [quiet] | intros ?]).
  apply runs_after_extract. intros src_dir.
  apply emits_only_bind; [apply emits_only_emit; exact I | intros _].
  apply emits_only_bind; [| intros _].
  { unfold configure_stage. destruct (configure _);
      [apply stage_block_exec_in | apply emits_only_ret]. }
  apply emits_only_bind; [| intros _].
  { unfold compile_stage. destruct (compile _);
      [apply stage_block_exec_in | apply emits_only_ret]. }
  apply emits_only_bind; [| intros _].
  { unfold install_stage. destruct (install _);
      [apply stage_block_exec_in | apply emits_only_ret]. }
  apply emits_only_ret.
Qed.

End Directory.

(** A job hands nothing to the shell, or all its commands run in one
    working directory, and that is the directory the extractor returned
    for the build directory: the first entry of its listing, taken on
    the machine the extraction left, that is a directory, joined to the
    build directory, or the build directory itself when no entry is a
    directory. *)
Theorem job_commands_run_in_extracted_dir {W} `{OS W} package_name (w : W) :
  execs (events_of (run package_name w)) = [] \/
  exists tarball w1 w2 names src_dir,
    extract_tarball tarball BUILD_DIR w1 = (w2, [], inr src_dir) /\
    os_listdir BUILD_DIR w2 = inr names /\
    ((src_dir = BUILD_DIR /\
      Forall (fun d => os_path_isdir (os_path.join BUILD_DIR d) w2 = false) names) \/
     exists pre d post,
       names = (pre ++ d :: post)%list /\
       Forall (fun d => os_path_isdir (os_path.join BUILD_DIR d) w2 = false) pre /\
       os_path_isdir (os_path.join BUILD_DIR d) w2 = true /\
       src_dir = os_path.join BUILD_DIR d) /\
    Forall (fun x : execution => snd (fst x) = src_dir)
      (execs (events_of (run package_name w))).
Proof.
  rewrite run_execs. exact (stages_run_in_extracted_dir package_name w).
Qed.

(** The job of the end-to-end scenario runs both commands in the
    directory the archive unpacks to. *)
Example scenario_working_directory :
  map (fun x : execution => snd (fst x)) (execs (events_of (run "pkg" Sim.w0)))
  = ["/home/user/sources/build/pkg-1.0"; "/home/user/sources/build/pkg-1.0"].
Proof. vm_compute. reflexivity. Qed.

(** ** What the status label shows during a stage *)

Lemma status_texts_app a b :
  status_texts (a ++ b) = (status_texts a ++ status_texts b)%list.
Proof. apply flat_map_app. Qed.

Lemma run_command_status_texts {W} `{OS W} src_dir stage cmd (w w1 : W) evs o :
  run_command src_dir stage cmd w = (w1, evs, o) ->
  status_texts evs =
  match o with
  | inr _ => [stage ++ ": " ++ cmd; stage ++ " done"]
  | inl _ => [stage ++ ": " ++ cmd]
  end.
Proof.
  unfold run_command, bind, status_label_setText, emit, run_shell, of_result,
    raise, ret.
  destruct (subprocess_run cmd src_dir w) as [w2 [e | cp]]; simpl.
  - now intros [= <- <- <-].
  - destruct (negb _); simpl.
    + destruct (bytes_decode (stderr cp)); now intros [= <- <- <-].
    + now intros [= <- <- <-].
Qed.

(** The build executor writes, for each command it runs, the stage name
    and the command, and after a command that exited with status 0 the
    stage name and [done]: when it returns, the label has shown both
    texts for every command, in order; when it raises, the last text is
    the failing command. *)
Theorem build_package_status_texts {W} `{OS W} src_dir commands stage (w : W) :
  let r := build_package src_dir commands stage w in
  let both := fun cmd => [stage ++ ": " ++ cmd; stage ++ " done"] in
  match outcome_of r with
  | inr _ => status_texts (events_of r) = flat_map both commands
  | inl _ =>
      exists before cmd rest,
        commands = (before ++ cmd :: rest)%list /\
        status_texts (events_of r)
        = (flat_map both before ++ [(stage ++ ": " ++ cmd)%string])%list
  end.
Proof.
  intros r both. subst r.
  assert (Hloop : forall w0 w1 evs o,
             run_commands src_dir stage commands w0 = (w1, evs, o) ->
             match o with
             | inr _ => status_texts evs = flat_map both commands
             | inl _ =>
                 exists before cmd rest,
                   commands = (before ++ cmd :: rest)%list /\
                   status_texts evs
                   = (flat_map both before ++ [(stage ++ ": " ++ cmd)%string])%list
             end).
  { induction commands as [| cmd rest IH]; intros w0 w1 evs o; simpl.
    - now intros [= <- <- <-].
    - intros Hb.
      apply bind_inv in Hb
        as [(e & Hc & ->) | (w2 & ev1 & [] & ev2 & Hc & Hr & ->)].
      + apply run_command_status_texts in Hc. exists [], cmd, rest. auto.
      + apply run_command_status_texts in Hc. apply IH in Hr.
        rewrite status_texts_app, Hc. destruct o as [msg | []].
        * destruct Hr as (before & c & rest' & -> & ->).
          exists (cmd :: before), c, rest'. auto.
        * now rewrite Hr. }
  unfold build_package, try_except, raise, outcome_of, events_of.
  destruct (run_commands src_dir stage commands w) as [[w1 evs] [e | []]] eqn:Hr;
    apply Hloop in Hr; simpl; [| exact Hr].
  now rewrite app_nil_r.
Qed.

(** ** Removing a package *)

Lemma lstrip_no_lead c s :
  match lstrip c s with
  | String a _ => Ascii.eqb a c = false
  | EmptyString => True
  end.
Proof.
  induction s as [| a s IH]; simpl; [exact I |].
  destruct (Ascii.eqb a c) eqn:E; [exact IH | exact E].
Qed.

Lemma lstrip_not_absolute file : PyStr.startswith (lstrip "/" file) "/" = false.
Proof.
  pose proof (lstrip_no_lead "/" file) as Hl. unfold PyStr.startswith.
  destruct (lstrip "/" file) as [| a t]; [reflexivity |]. cbn -[ascii_dec].
  destruct (ascii_dec "/" a) as [<- | Hne]; [| reflexivity].
  rewrite Ascii.eqb_refl in Hl. discriminate.
Qed.

Lemma install_path_eq file : install_path file = "/usr/" ++ lstrip "/" file.
Proof.
  unfold install_path, os_path.join. now rewrite lstrip_not_absolute.
Qed.

(** A listed file is removed below the install directory, however many
    slashes its name begins with: the path is [/usr/] followed by the
    name without its leading slashes, which does not begin with a
    slash. *)
Theorem install_path_below_install_dir file :
  install_path file = "/usr/" ++ lstrip "/" file /\
  PyStr.startswith (lstrip "/" file) "/" = false.
Proof. split; [apply install_path_eq | apply lstrip_not_absolute]. Qed.

Section RemovalProperties.

Context {W : Type} `{OS W}.

Lemma remove_files_emits listed :
  emits_only (removal_of listed) (remove_files listed).
Proof.
  induction listed as [| file rest IH]; simpl; [apply emits_only_ret |].
  apply emits_only_bind; [apply emits_only_asking | intros present].
  apply emits_only_bind.
  - destruct present; [| apply emits_only_ret].
    unfold remove. apply emits_only_bind; [| intros _; apply emits_only_calling].
    apply emits_only_emit. exists file. split; [now left | reflexivity].
  - intros _. eapply emits_only_weaken; [| exact IH].
    intros e (f & Hf & ->). exists f. split; [now right | reflexivity].
Qed.

End RemovalProperties.

(** The removal loop calls nothing but [os.remove], and only on paths
    of listed files below the install directory: every event of the
    loop is the removal of [/usr/] followed by a listed name without
    its leading slashes. *)
Theorem remove_files_only_listed {W} `{OS W} listed (w : W) :
  Forall (fun e => exists file,
              In file listed /\ e = Remove ("/usr/" ++ lstrip "/" file))
    (events_of (remove_files listed w)).
Proof.
  eapply Forall_impl; [| apply remove_files_emits].
  intros e (file & Hin & ->). exists file. split; [exact Hin |].
  now rewrite install_path_eq.
Qed.

(** When none of the listed files exists, the loop succeeds, calls
    nothing and leaves the machine as it is. *)
Theorem remove_files_absent {W} `{OS W} listed (w : W) :
  Forall (fun file => os_path_exists (install_path file) w = false) listed ->
  remove_files listed w = (w, [], inr tt).
Proof.
  induction 1 as [| file rest Hf _ IH]; simpl; [reflexivity |].
  unfold bind, asking, ret. rewrite Hf. simpl.
  now rewrite IH.
Qed.

Lemma remove_files_absent_witness :
  Forall (fun file => os_path_exists (install_path file) Sim.w0 = false)
    ["bin/tool"; "/lib/libtool.so"] /\
  remove_files ["bin/tool"; "/lib/libtool.so"] Sim.w0 = (Sim.w0, [], inr tt).
Proof.
  assert (Ha : Forall (fun file => os_path_exists (install_path file) Sim.w0 = false)
                 ["bin/tool"; "/lib/libtool.so"])
    by (repeat constructor).
  split; [exact Ha |]. exact (remove_files_absent _ Sim.w0 Ha).
Defined.

Section RemovalLoop.

Context {W : Type} `{OS W}.

(** One turn of the loop, by what the machine answers. *)
Lemma remove_files_cons file rest (w : W) :
  remove_files (file :: rest) w =
  if os_path_exists (install_path file) w then
    match os_remove (install_path file) w with
    | (w1, inl e) => (w1, [Remove (install_path file)], inl e)
    | (w1, inr _) =>
        match remove_files rest w1 with
        | (w2, evs, o) => (w2, Remove (install_path file) :: evs, o)
        end
    end
  else remove_files rest w.
Proof.
  cbn [remove_files]. unfold bind at 1 2, asking. cbn [fst snd].
  destruct (os_path_exists (install_path file) w).
  - unfold remove, bind, emit, calling.
    destruct (os_remove (install_path file) w) as [w1 [e | []]]; [reflexivity |].
    now destruct (remove_files rest w1) as [[w2 evs] o].
  - unfold ret. now destruct (remove_files rest w) as [[w2 evs] o].
Qed.

Lemma remove_files_failure listed : forall (w w1 : W) evs e,
  remove_files listed w = (w1, evs, inl e) ->
  exists before file rest evs0 w',
    listed = (before ++ file :: rest)%list /\
    remove_files before w = (w', evs0, inr tt) /\
    evs = (evs0 ++ [Remove (install_path file)])%list /\
    os_path_exists (install_path file) w' = true /\
    os_remove (install_path file) w' = (w1, inl e).
Proof.
  induction listed as [| file rest IH]; intros w w1 evs e; [discriminate |].
  rewrite remove_files_cons.
  destruct (os_path_exists (install_path file) w) eqn:Hex.
  - destruct (os_remove (install_path file) w) as [w2 [e1 | []]] eqn:Hrm.
    + intros [= <- <- <-]. exists [], file, rest, [], w. auto.
    + destruct (remove_files rest w2) as [[w3 ev3] o3] eqn:Hr.
      intros [= <- <- ->].
      apply IH in Hr as (before & f & rest' & evs0 & w' & -> & Hb & -> & Hex' & Hrm').
      exists (file :: before), f, rest', (Remove (install_path file) :: evs0), w'.
      repeat split; auto.
      rewrite remove_files_cons, Hex, Hrm, Hb. reflexivity.
  - intros Hr.
    apply IH in Hr as (before & f & rest' & evs0 & w' & -> & Hb & -> & Hex' & Hrm').
    exists (file :: before), f, rest', evs0, w'.
    repeat split; auto.
    rewrite remove_files_cons, Hex. exact Hb.
Qed.

Lemma remove_files_raises before : forall (w w' w1 : W) evs0 file rest e,
  remove_files before w = (w', evs0, inr tt) ->
  os_path_exists (install_path file) w' = true ->
  os_remove (install_path file) w' = (w1, inl e) ->
  remove_files (before ++ file :: rest) w
  = (w1, (evs0 ++ [Remove (install_path file)])%list, inl e).
Proof.
  induction before as [| f0 before IH]; intros w w' w1 evs0 file rest e Hb Hex Hrm.
  - injection Hb as <- <-. simpl app. now rewrite remove_files_cons, Hex, Hrm.
  - rewrite remove_files_cons in Hb. simpl app. rewrite remove_files_cons.
    destruct (os_path_exists (install_path f0) w).
    + destruct (os_remove (install_path f0) w) as [w2 [e1 | []]]; [discriminate |].
      destruct (remove_files before w2) as [[w3 ev3] o3] eqn:Hr.
      injection Hb as -> <- ->.
      now rewrite (IH _ _ _ _ file rest e Hr Hex Hrm).
    + now apply IH with (w' := w').
Qed.

End RemovalLoop.

(** The loop stops at the first [os.remove] that raises.  It raises [e]
    exactly when the entries before some listed file were handled
    without an exception, that file exists on the machine they left,
    and [os.remove] raises [e] on it; the removal of that file is then
    the last event, the entries after it are not touched, and the
    machine is the one that call left, with the earlier removals in
    place. *)
Theorem remove_files_stops_at_failure {W} `{OS W} listed (w w1 : W) evs e :
  remove_files listed w = (w1, evs, inl e) <->
  exists before file rest evs0 w',
    listed = (before ++ file :: rest)%list /\
    remove_files before w = (w', evs0, inr tt) /\
    evs = (evs0 ++ [Remove (install_path file)])%list /\
    os_path_exists (install_path file) w' = true /\
    os_remove (install_path file) w' = (w1, inl e).
Proof.
  split.
  - apply remove_files_failure.
  - intros (before & file & rest & evs0 & w' & -> & Hb & -> & Hex & Hrm).
    now apply remove_files_raises with (w' := w').
Qed.

(** Three listed files of which the second is a directory: the first is
    removed, [os.remove] raises on the second, the third stays. *)
Example remove_stops_at_directory :
  remove_files ["bin/tool"; "/share"; "lib/libtool.so"]
    {| Sim.fs := [("/usr", Sim.Dir); ("/usr/bin/tool", Sim.File "ELF");
                  ("/usr/share", Sim.Dir); ("/usr/lib/libtool.so", Sim.File "ELF")];
       Sim.remote := [] |}
  = ({| Sim.fs := [("/usr", Sim.Dir); ("/usr/share", Sim.Dir);
                   ("/usr/lib/libtool.so", Sim.File "ELF")];
        Sim.remote := [] |},
     [Remove "/usr/bin/tool"; Remove "/usr/share"],
     inl "[Errno 21] Is a directory: '/usr/share'").
Proof. vm_compute. reflexivity. Qed.

(** Removing never raises: it always ends by showing one dialog.
    Without a selection the dialog is an error and nothing else
    happens; otherwise it is the success dialog, or an error dialog
    whose text is a fixed prefix followed by its details. *)
Theorem remove_package_shows_one_dialog {W} `{OS W} pm (w : W) :
  exists box,
    outcome_of (remove_package pm w) = inr box /\
    (if no_selection pm then
       remove_package pm w
       = (w, [], inr {| title := "Error";
                        text := "You need to select a package first!";
                        details := "" |})
     else
       (title box = "Success" /\ details box = "" /\
        exists selected, selected_package pm = Some selected /\
                         text box = "Removed " ++ selected ++ "!") \/
       (title box = "Error" /\
        text box = "Couldn’t remove the package: " ++ details box)).
Proof.
  unfold remove_package. destruct (no_selection pm) eqn:Hns.
  { eexists. split; reflexivity. }
  assert (Hsel : exists selected, selected_package pm = Some selected).
  { unfold no_selection in Hns. destruct (selected_package pm); [eauto | discriminate]. }
  destruct Hsel as [selected Hsel]. rewrite Hsel.
  unfold try_except, outcome_of, ret.
  match goal with
  | |- context [match ?m w with _ => _ end] =>
      destruct (m w) as [[w1 ev1] [e | box]] eqn:Hb
  end; simpl.
  - eexists. split; [reflexivity |]. right. split; reflexivity.
  - exists box. split; [reflexivity |]. left.
    apply bind_inv in Hb as [(e & _ & [=]) | (w2 & ev2 & p & ev3 & _ & Hb & _)].
    apply bind_inv in Hb as [(e & _ & [=]) | (w3 & ev4 & i & ev5 & _ & Hb & _)].
    apply bind_inv in Hb as [(e & _ & [=]) | (w4 & ev6 & [] & ev7 & _ & Hb & _)].
    injection Hb as _ _ <-. simpl. eauto.
Qed.

(** A recipe without an install manifest: removing the package
    succeeds, calls nothing and leaves the machine as it is. *)
Theorem remove_package_without_manifest {W} `{OS W} pm (w : W)
  selected toml_path info :
  selected_package pm = Some selected ->
  selected <> "" ->
  outcome_of (find_package_toml selected w) = inr toml_path ->
  outcome_of (load_package_info toml_path w) = inr info ->
  manifest info = [] ->
  remove_package pm w
  = (w, [], inr {| title := "Success"; text := "Removed " ++ selected ++ "!";
                   details := "" |}).
Proof.
  intros Hsel Hne Hfind Hload Hm.
  destruct (find_package_toml selected w) as [[w1 ev1] o1] eqn:Ef.
  destruct (find_package_toml_reads _ _ _ _ _ Ef) as [-> ->].
  destruct (load_package_info toml_path w) as [[w2 ev2] o2] eqn:El.
  destruct (load_package_info_reads _ _ _ _ _ El) as [-> ->].
  unfold outcome_of in Hfind, Hload. simpl in Hfind, Hload. subst o1 o2.
  unfold remove_package, no_selection. rewrite Hsel.
  apply String.eqb_neq in Hne. rewrite Hne.
  unfold try_except, bind. rewrite Ef, El, Hm. reflexivity.
Qed.

Lemma remove_package_without_manifest_witness :
  let pm := {| selected_package := Some "pkg"; install_thread := None;
               progress_bar_visible := false; progress_bar_value := 0;
               dialogs := [] |} in
  selected_package pm = Some "pkg" /\
  "pkg" <> "" /\
  outcome_of (find_package_toml "pkg" Sim.w0) = inr "/home/user/sources/pkg/pkg.toml" /\
  outcome_of (load_package_info "/home/user/sources/pkg/pkg.toml" Sim.w0)
    = inr Sim.pkg_info /\
  manifest Sim.pkg_info = [] /\
  remove_package pm Sim.w0
  = (Sim.w0, [], inr {| title := "Success"; text := "Removed pkg!"; details := "" |}).
Proof.
  intros pm.
  assert (Hne : "pkg" <> "") by discriminate.
  split; [reflexivity |]. split; [exact Hne |].
  split; [reflexivity |]. split; [reflexivity |]. split; [reflexivity |].
  exact (remove_package_without_manifest pm Sim.w0 "pkg"
           "/home/user/sources/pkg/pkg.toml" Sim.pkg_info
           eq_refl Hne eq_refl eq_refl eq_refl).
Defined.

(** Two listed files of which only the first exists: it is removed, the
    other is skipped without an error. *)
Example remove_existing_skip_missing :
  remove_files ["/bin/tool"; "share/doc/tool"]
    {| Sim.fs := [("/usr", Sim.Dir); ("/usr/bin", Sim.Dir);
                  ("/usr/bin/tool", Sim.File "ELF")];
       Sim.remote := [] |}
  = ({| Sim.fs := [("/usr", Sim.Dir); ("/usr/bin", Sim.Dir)]; Sim.remote := [] |},
     [Remove "/usr/bin/tool"], inr tt).
Proof. vm_compute. reflexivity. Qed.

(** ** One job at a time, over the life of a job *)

(** After a package with a non-empty name is selected in a window
    without a running job: the first request starts a thread for that
    package and resets the progress bar to 0; a second request is
    answered with an error dialog and changes nothing else; once the
    completion event is handled, no job is running, the progress bar is
    hidden, and a further request starts a thread for the same package
    again. *)
Theorem one_job_at_a_time (pkg : string) (pm : PackageManager) :
  pkg <> "" ->
  job_running pm = false ->
  let pm1 := start_installation (fst (package_selected pkg pm)) in
  install_thread pm1 = Some {| package_name := pkg; isRunning := true |} /\
  progress_bar_value pm1 = 0%Z /\ progress_bar_visible pm1 = true /\
  dialogs pm1 = dialogs pm /\
  start_installation pm1
  = show_message_box
      {| title := "Error"; text := "Hold on, an installation’s already running!";
         details := "" |} pm1 /\
  forall success message det,
    let pm2 := installation_finished success message det pm1 in
    job_running pm2 = false /\
    progress_bar_visible pm2 = false /\
    selected_package pm2 = Some pkg /\
    dialogs pm2
    = (dialogs pm ++ [{| title := "Result"; text := message; details := det |}])%list /\
    install_thread (start_installation pm2)
    = Some {| package_name := pkg; isRunning := true |}.
Proof.
  intros Hne Hidle pm1.
  apply String.eqb_neq in Hne.
  assert (H1 : pm1 = {| selected_package := Some pkg;
                        install_thread :=
                          Some {| package_name := pkg; isRunning := true |};
                        progress_bar_visible := true;
                        progress_bar_value := 0;
                        dialogs := dialogs pm |}).
  { subst pm1. unfold start_installation, package_selected, no_selection, job_running in *.
    simpl. rewrite Hne.
    destruct (install_thread pm) as [t |]; [rewrite Hidle |]; reflexivity. }
  rewrite H1. clear H1 pm1.
  repeat split;
    unfold start_installation, installation_finished, no_selection, job_running;
    simpl; rewrite ?Hne; reflexivity.
Qed.

Lemma one_job_at_a_time_witness :
  let pm := {| selected_package := None; install_thread := None;
               progress_bar_visible := false; progress_bar_value := 0;
               dialogs := [] |} in
  "pkg" <> "" /\
  job_running pm = false /\
  install_thread (start_installation (fst (package_selected "pkg" pm)))
  = Some {| package_name := "pkg"; isRunning := true |}.
Proof.
  intros pm.
  assert (Hne : "pkg" <> "") by discriminate.
  split; [exact Hne |]. split; [reflexivity |].
  exact (proj1 (one_job_at_a_time "pkg" pm Hne eq_refl)).
Defined.

(** ** The icon of the result dialog *)

(** The dialog chooses its icon by the text of the message, not by the
    outcome: the message of a successful job always gets the check
    mark, whatever the package is called, and so does the message of a
    failed job whose error text contains [installed] in any letter
    case. *)
Theorem result_icon_follows_text :
  (forall package_name,
      icon_label ("'" ++ package_name ++ "' installed") = "✅") /\
  (forall e, PyStr.contains "installed" (PyStr.lower e) = true ->
             icon_label ("Failed: " ++ e) = "✅") /\
  (forall e, PyStr.contains "installed" (PyStr.lower ("Failed: " ++ e)) = false ->
             icon_label ("Failed: " ++ e) = "❌").
Proof.
  unfold icon_label. split; [| split].
  - intros package_name.
    change ("'" ++ package_name ++ "' installed")
      with ("'" ++ (package_name ++ "' installed")).
    rewrite !lower_append.
    rewrite contains_append_r; [reflexivity |].
    apply contains_append_r. reflexivity.
  - intros e He. rewrite lower_append, contains_append_r; [reflexivity | exact He].
  - intros e He. now rewrite He.
Qed.

(** ** A package that has no recipe *)

Lemma find_in_walk_no_match wanted walk :
  Forall (fun rf => Forall (fun f => recipe_match wanted f = false) (snd rf)) walk ->
  find_in_walk wanted walk = None.
Proof.
  intros Hall. destruct (find_in_walk wanted walk) as [p |] eqn:Hf; [| reflexivity].
  apply find_in_walk_some in Hf as (before & root & listing & after & -> & _ & Hl).
  apply find_in_files_some in Hl as (pre & file & post & -> & _ & Hm & _).
  apply Forall_app in Hall as [_ Hall]. inversion Hall as [| ? ? Hl' _]; subst.
  simpl in Hl'. apply Forall_app in Hl' as [_ Hl'].
  inversion Hl' as [| ? ? Hfile _]; subst. rewrite Hfile in Hm. discriminate.
Qed.

(** When no [.toml] file of the source tree contains the package name,
    the job ends at once with the failure completion event, whose
    details quote the name; it emits nothing else and leaves the
    machine as it is. *)
Theorem unknown_package_fails {W} `{OS W} package_name (w : W) :
  Forall (fun rf => Forall (fun f => recipe_match package_name f = false) (snd rf))
    (os_walk SOURCES_BASE_DIR w) ->
  let e := "Search for the package failed: Couldn’t find the package '"
           ++ package_name ++ "'" in
  run package_name w = (w, [Finished false ("Failed: " ++ e) e], inr tt).
Proof.
  intros Hall e. subst e.
  assert (Hs : stages package_name w
               = (w, [], inl ("Search for the package failed: Couldn’t find the package '"
                              ++ package_name ++ "'"))).
  { unfold stages. unfold bind at 1.
    now rewrite find_package_toml_eq, (find_in_walk_no_match _ _ Hall). }
  rewrite run_eq, Hs. reflexivity.
Qed.

Lemma unknown_package_fails_witness :
  Forall (fun rf => Forall (fun f => recipe_match "zlib" f = false) (snd rf))
    (os_walk SOURCES_BASE_DIR Sim.w0) /\
  run "zlib" Sim.w0
  = (Sim.w0,
     [Finished false
        "Failed: Search for the package failed: Couldn’t find the package 'zlib'"
        "Search for the package failed: Couldn’t find the package 'zlib'"],
     inr tt).
Proof.
  assert (Hall : Forall (fun rf => Forall (fun f => recipe_match "zlib" f = false)
                                    (snd rf))
                   (os_walk SOURCES_BASE_DIR Sim.w0))
    by (vm_compute; repeat constructor).
  split; [exact Hall |]. exact (unknown_package_fails "zlib" Sim.w0 Hall).
Defined.

(** ** Searching for a listed name *)

Lemma prefix_refl s : String.prefix s s = true.
Proof.
  induction s as [| a s IH]; simpl; [reflexivity |].
  destruct (ascii_dec a a); [exact IH | contradiction].
Qed.

(** A package of the list is shown by the search for its own name,
    typed in any letter case. *)
Theorem listed_name_is_shown_by_its_search {W} `{OS W} stem search_text (w : W) :
  In stem (get_all_package_names w) ->
  PyStr.lower search_text = PyStr.lower stem ->
  In stem (search_packages search_text w).
Proof.
  intros Hin Hq. unfold search_packages, load_all_packages.
  apply filter_In. split; [exact Hin |].
  rewrite Hq. apply contains_prefix, prefix_refl.
Qed.

Lemma listed_name_is_shown_by_its_search_witness :
  In "tool" (get_all_package_names Sim.w0) /\
  PyStr.lower "TooL" = PyStr.lower "tool" /\
  In "tool" (search_packages "TooL" Sim.w0).
Proof.
  assert (Hin : In "tool" (get_all_package_names Sim.w0)).
  { vm_compute. right. left. reflexivity. }
  split; [exact Hin |]. split; [reflexivity |].
  exact (listed_name_is_shown_by_its_search "tool" "TooL" Sim.w0 Hin eq_refl).
Defined.
